(** * Tradfri HTTP facade: view cache, description builder, command dispatcher

    A shallow embedding of [app.py].  The handlers of the Flask application
    are state-passing functions over a [World] that holds the two module
    globals ([CACHED_RESPONSE], [LAST_FETCH]), the module lock, the wall
    clock, the provisioning file and the gateway.  Python exceptions are an
    explicit outcome, so that a handler which raises is visible as such.

    The gateway itself (pytradfri and the physical hub behind it) is outside
    [app.py]; it is represented by an inventory of devices, groups and moods
    together with an oracle that says which requests fail.  Every request the
    program issues is recorded, in order, in the world's [trace], as are the
    entries into [fetch_description] and [invalidate_description].

    Timestamps returned by [time.time()] are taken as exact rationals. *)

From stdpp Require Import gmap strings list.
From Stdlib Require Import QArith Lqa.

Open Scope Z_scope.

(** ** Data model *)

(** One entry of [device.light_control.lights]. *)
Record Light := { dimmer : Z; state : bool }.

(** A pytradfri device.  [has_light_control] holds exactly when the device
    carries at least one light; [light_control] is [None] otherwise. *)
Record Device := { dev_id : Z; dev_name : string; dev_lights : list Light }.

Definition has_light_control (d : Device) : bool :=
  match dev_lights d with [] => false | _ :: _ => true end.

Definition light_control (d : Device) : option (list Light) :=
  if has_light_control d then Some (dev_lights d) else None.

Record Mood := { mood_id : Z; mood_name : string }.

Record Group := {
  grp_id : Z;
  grp_name : string;
  member_ids : list Z;
  grp_mood_id : Z
}.

(** The JSON view served at [/description.json]. *)
Record Bulb := { b_name : string; b_dimmer : Z; b_state : bool; b_id : Z }.
Record Ambiance := { a_name : string; a_id : Z }.
Record RoomView := {
  rv_name : string;
  rv_bulbs : list Bulb;
  rv_ambiances : list Ambiance;
  rv_id : Z;
  rv_ambiance_active : Z
}.
Definition Description := list RoomView.

(** ** Gateway requests, call log, exceptions *)

Inductive Command :=
| GetDevices
| GetDevice (id : Z)
| GetGroups
| GetGroup (id : Z)
| GetMoods (group : Z)
| GetMood (group mood : Z)
| SetState (id : Z) (on : bool)
| SetDimmer (id : Z) (value : Z)
| ActivateMood (group mood : Z).

Inductive Event :=
| EApi (c : Command)      (* a request handed to [api] *)
| EFetch                  (* entry into [fetch_description] *)
| EInvalidate.            (* execution of [invalidate_description] *)

Inductive Exn :=
| RequestError            (* the gateway did not answer the request *)
| ClientError             (* the gateway answered: no such resource *)
| AttributeError
| TypeError
| IndexError
| NameError
| RuntimeError
| Blocked.                (* [lock.acquire()] on a held lock: no return *)

Inductive Outcome (A : Type) :=
| Ret (a : A)
| Raise (e : Exn).
Arguments Ret {A} a.
Arguments Raise {A} e.

(** ** The gateway *)

Record Gateway := {
  gw_devices : list Device;
  gw_groups : list Group;
  gw_moods : list (Z * Mood);          (* (owning group, mood) *)
  gw_fails : list Event -> Command -> bool
}.

Definition find_device (g : Gateway) (id : Z) : option Device :=
  List.find (fun d => dev_id d =? id) (gw_devices g).

Definition find_group (g : Gateway) (id : Z) : option Group :=
  List.find (fun r => grp_id r =? id) (gw_groups g).

Definition moods_of (g : Gateway) (group : Z) : list Mood :=
  map snd (List.filter (fun gm => fst gm =? group) (gw_moods g)).

Definition find_mood (g : Gateway) (group mood : Z) : option Mood :=
  List.find (fun m => mood_id m =? mood) (moods_of g group).

Definition with_devices (ds : list Device) (g : Gateway) : Gateway :=
  {| gw_devices := ds; gw_groups := gw_groups g;
     gw_moods := gw_moods g; gw_fails := gw_fails g |}.

Definition with_groups (gs : list Group) (g : Gateway) : Gateway :=
  {| gw_devices := gw_devices g; gw_groups := gs;
     gw_moods := gw_moods g; gw_fails := gw_fails g |}.

(** Effect of a light command on the hub: it addresses light 0 of the
    device. *)
Definition update_light0 (f : Light -> Light) (d : Device) : Device :=
  match dev_lights d with
  | [] => d
  | l :: ls => {| dev_id := dev_id d; dev_name := dev_name d;
                  dev_lights := f l :: ls |}
  end.

Definition update_device (id : Z) (f : Light -> Light) (g : Gateway) : Gateway :=
  with_devices
    (map (fun d => if dev_id d =? id then update_light0 f d else d)
         (gw_devices g)) g.

Definition update_group_mood (id mood : Z) (g : Gateway) : Gateway :=
  with_groups
    (map (fun r => if grp_id r =? id
                   then {| grp_id := grp_id r; grp_name := grp_name r;
                           member_ids := member_ids r; grp_mood_id := mood |}
                   else r)
         (gw_groups g)) g.

(** ** The world and the handler monad *)

Record World := {
  gw : Gateway;
  conf_has_gateway : bool;     (* config.json holds an entry for GATEWAY_IP *)
  trace : list Event;
  clock : nat -> Q;            (* successive readings of time.time() *)
  ticks : nat;                 (* readings taken so far *)
  lock : bool;                 (* the module lock is held *)
  CACHED_RESPONSE : option Description;
  LAST_FETCH : option Q
}.

Definition set_gw (g : Gateway) (w : World) : World :=
  {| gw := g; conf_has_gateway := conf_has_gateway w; trace := trace w;
     clock := clock w; ticks := ticks w; lock := lock w;
     CACHED_RESPONSE := CACHED_RESPONSE w; LAST_FETCH := LAST_FETCH w |}.

Definition log (e : Event) (w : World) : World :=
  {| gw := gw w; conf_has_gateway := conf_has_gateway w;
     trace := trace w ++ [e];
     clock := clock w; ticks := ticks w; lock := lock w;
     CACHED_RESPONSE := CACHED_RESPONSE w; LAST_FETCH := LAST_FETCH w |}.

Definition tick (w : World) : World :=
  {| gw := gw w; conf_has_gateway := conf_has_gateway w; trace := trace w;
     clock := clock w; ticks := S (ticks w); lock := lock w;
     CACHED_RESPONSE := CACHED_RESPONSE w; LAST_FETCH := LAST_FETCH w |}.

Definition set_lock (b : bool) (w : World) : World :=
  {| gw := gw w; conf_has_gateway := conf_has_gateway w; trace := trace w;
     clock := clock w; ticks := ticks w; lock := b;
     CACHED_RESPONSE := CACHED_RESPONSE w; LAST_FETCH := LAST_FETCH w |}.

Definition set_CACHED_RESPONSE (v : option Description) (w : World) : World :=
  {| gw := gw w; conf_has_gateway := conf_has_gateway w; trace := trace w;
     clock := clock w; ticks := ticks w; lock := lock w;
     CACHED_RESPONSE := v; LAST_FETCH := LAST_FETCH w |}.

Definition set_LAST_FETCH (v : option Q) (w : World) : World :=
  {| gw := gw w; conf_has_gateway := conf_has_gateway w; trace := trace w;
     clock := clock w; ticks := ticks w; lock := lock w;
     CACHED_RESPONSE := CACHED_RESPONSE w; LAST_FETCH := v |}.

Definition M (A : Type) : Type := World -> Outcome A * World.

Definition ret {A} (a : A) : M A := fun w => (Ret a, w).

Definition raise {A} (e : Exn) : M A := fun w => (Raise e, w).

Definition bind {A B} (m : M A) (k : A -> M B) : M B :=
  fun w =>
    match m w with
    | (Ret a, w') => k a w'
    | (Raise e, w') => (Raise e, w')
    end.

Notation "x <- m ;; k" := (bind m (fun x => k))
  (at level 100, m at next level, right associativity).
Notation "m ;;; k" := (bind m (fun _ => k))
  (at level 100, right associativity).

(** [try: body finally: fin]: [fin] runs whatever [body] did; the outcome
    of [body] stands unless [fin] itself raises. *)
Definition try_finally {A} (body : M A) (fin : M unit) : M A :=
  fun w =>
    match body w with
    | (r, w') =>
        match fin w' with
        | (Ret _, w'') => (r, w'')
        | (Raise e, w'') => (Raise e, w'')
        end
    end.

(** [[f(x) for x in xs]] with an effectful [f]. *)
Fixpoint mapM {A B} (f : A -> M B) (xs : list A) : M (list B) :=
  match xs with
  | [] => ret []
  | x :: xs' => y <- f x ;; ys <- mapM f xs' ;; ret (y :: ys)
  end.

(** [for x in xs: body(x)]. *)
Fixpoint for_each {A} (xs : list A) (body : A -> M unit) : M unit :=
  match xs with
  | [] => ret tt
  | x :: xs' => body x ;;; for_each xs' body
  end.

Definition emit (e : Event) : M unit := fun w => (Ret tt, log e w).

(** [time.time()] *)
Definition time_time : M Q :=
  fun w => (Ret (clock w (ticks w)), tick w).

(** [api(command)]: the request is recorded, then either fails in transit,
    is refused by the hub, or is served. *)
Definition request {A} (c : Command)
    (serve : Gateway -> option (A * Gateway)) : M A :=
  fun w =>
    let w1 := log (EApi c) w in
    if gw_fails (gw w) (trace w) c then (Raise RequestError, w1)
    else match serve (gw w) with
         | Some (a, g') => (Ret a, set_gw g' w1)
         | None => (Raise ClientError, w1)
         end.

Definition reading {A} (f : Gateway -> option A) (g : Gateway)
    : option (A * Gateway) :=
  match f g with Some a => Some (a, g) | None => None end.

(** [api(gateway.get_devices())]: one command per known device. *)
Definition api_get_devices : M (list Z) :=
  request GetDevices (reading (fun g => Some (map dev_id (gw_devices g)))).

(** [api(gateway.get_device(id))] *)
Definition api_get_device (id : Z) : M Device :=
  request (GetDevice id) (reading (fun g => find_device g id)).

(** [api(gateway.get_groups())] *)
Definition api_get_groups : M (list Z) :=
  request GetGroups (reading (fun g => Some (map grp_id (gw_groups g)))).

(** [api(gateway.get_group(id))] *)
Definition api_get_group (id : Z) : M Group :=
  request (GetGroup id) (reading (fun g => find_group g id)).

(** [api(gateway.get_moods(group))] *)
Definition api_get_moods (group : Z) : M (list Z) :=
  request (GetMoods group)
          (reading (fun g => Some (map mood_id (moods_of g group)))).

(** [api(gateway.get_mood(mood, mood_parent=group))] *)
Definition api_get_mood (group mood : Z) : M Mood :=
  request (GetMood group mood) (reading (fun g => find_mood g group mood)).

Definition writing (id : Z) (f : Light -> Light) (g : Gateway)
    : option (unit * Gateway) :=
  match find_device g id with
  | Some _ => Some (tt, update_device id f g)
  | None => None
  end.

(** [api(device.light_control.set_state(on))] *)
Definition api_set_state (id : Z) (on : bool) : M unit :=
  request (SetState id on)
          (writing id (fun l => {| dimmer := dimmer l; state := on |})).

(** [api(device.light_control.set_dimmer(value))] *)
Definition api_set_dimmer (id : Z) (value : Z) : M unit :=
  request (SetDimmer id value)
          (writing id (fun l => {| dimmer := value; state := state l |})).

(** [api(group.activate_mood(mood_id=mood))] *)
Definition api_activate_mood (group mood : Z) : M unit :=
  request (ActivateMood group mood)
          (fun g => match find_group g group with
                    | Some _ => Some (tt, update_group_mood group mood g)
                    | None => None
                    end).

Definition gets {A} (f : World -> A) : M A := fun w => (Ret (f w), w).

Definition modify (f : World -> World) : M unit := fun w => (Ret tt, f w).

(** ** [get_gateway_and_api]

    With an entry for the gateway in [config.json] the function returns the
    request function.  Without one it reaches
    [api_factory.generate_psk(GATEWAY_SEC)], and [GATEWAY_SEC] is not a name
    of the module. *)
Definition get_gateway_and_api : M unit :=
  has <- gets conf_has_gateway ;;
  if has then ret tt else raise NameError.

(** ** Description builder: [fetch_description] *)

(** [dict(pairs)]: later pairs overwrite earlier ones. *)
Definition dict {V} (pairs : list (Z * V)) : gmap Z V :=
  foldl (fun m kv => <[kv.1 := kv.2]> m) ∅ pairs.

(** Attribute access on a value that may be [None]. *)
Definition attr {A} (device : option Device) (f : Device -> A) : M A :=
  match device with
  | None => raise AttributeError
  | Some d => ret (f d)
  end.

(** [device.light_control.lights[0]] *)
Definition first_light (device : option Device) : M Light :=
  lc <- attr device light_control ;;
  match lc with
  | None => raise AttributeError
  | Some [] => raise IndexError
  | Some (l :: _) => ret l
  end.

(** The loop [for device in room_devices] of [fetch_description]; [bulbs]
    is [room_description["bulbs"]]. *)
Fixpoint collect_bulbs (room_devices : list (option Device))
    (bulbs : list Bulb) : M (list Bulb) :=
  match room_devices with
  | [] => ret bulbs
  | device :: rest =>
      light <- attr device has_light_control ;;
      if light then
        name <- attr device dev_name ;;
        l <- first_light device ;;
        id <- attr device dev_id ;;
        collect_bulbs rest
          (bulbs ++ [{| b_name := name; b_dimmer := dimmer l;
                        b_state := state l; b_id := id |}])
      else
        attr device dev_name ;;;
        collect_bulbs rest bulbs
  end.

(** The body of the loop [for room in groups]. *)
Definition describe_room (device_index : gmap Z Device) (room : Group)
    : M RoomView :=
  let room_devices :=
    map (fun dev_id => device_index !! dev_id) (member_ids room) in
  active_ambiance <- api_get_mood (grp_id room) (grp_mood_id room) ;;
  moods_commands <- api_get_moods (grp_id room) ;;
  moods <- mapM (api_get_mood (grp_id room)) moods_commands ;;
  let ambiances :=
    map (fun mood => {| a_name := mood_name mood; a_id := mood_id mood |})
        moods in
  bulbs <- collect_bulbs room_devices [] ;;
  ret {| rv_name := grp_name room;
         rv_bulbs := bulbs;
         rv_ambiances := ambiances;
         rv_id := grp_id room;
         rv_ambiance_active := mood_id active_ambiance |}.

Definition fetch_description : M Description :=
  emit EFetch ;;;
  get_gateway_and_api ;;;
  devices_commands <- api_get_devices ;;
  devices <- mapM api_get_device devices_commands ;;
  groups_commands <- api_get_groups ;;
  groups <- mapM api_get_group groups_commands ;;
  let device_index := dict (map (fun x => (dev_id x, x)) devices) in
  mapM (describe_room device_index) groups.

(** ** Description cache: [get_description], [invalidate_description] *)

Definition lock_acquire : M unit :=
  fun w => if lock w then (Raise Blocked, w) else (Ret tt, set_lock true w).

Definition lock_release : M unit :=
  fun w => if lock w then (Ret tt, set_lock false w)
           else (Raise RuntimeError, w).

Definition Qgtb (a b : Q) : bool := negb (Qle_bool a b).

(** [CACHED_RESPONSE is None or (time.time() - LAST_FETCH) > 10.0] *)
Definition stale : M bool :=
  cached <- gets CACHED_RESPONSE ;;
  match cached with
  | None => ret true
  | Some _ =>
      now <- time_time ;;
      last <- gets LAST_FETCH ;;
      match last with
      | None => raise TypeError
      | Some t => ret (Qgtb (now - t) 10)
      end
  end.

(** The result is the content of [CACHED_RESPONSE] at the end of the [try]
    block; [None] is Python's [None]. *)
Definition get_description : M (option Description) :=
  lock_acquire ;;;
  try_finally
    (refresh <- stale ;;
     (if refresh then
        d <- fetch_description ;;
        modify (set_CACHED_RESPONSE (Some d)) ;;;
        now <- time_time ;;
        modify (set_LAST_FETCH (Some now))
      else ret tt) ;;;
     gets CACHED_RESPONSE)
    lock_release.

Definition invalidate_description : M unit :=
  emit EInvalidate ;;;
  modify (set_CACHED_RESPONSE None).

(** ** Command dispatcher

    The [room] argument of the device-level handlers is a path segment that
    the body never inspects; the handlers are therefore parametric in it. *)

(** [device.light_control.set_state] / [.set_dimmer]: the attribute
    [light_control] of a device without lights is [None]. *)
Definition with_light_control (d : Device) : M unit :=
  match light_control d with
  | None => raise AttributeError
  | Some _ => ret tt
  end.

Definition switchOffBulb {R} (room : R) (bulb : Z) : M string :=
  get_gateway_and_api ;;;
  devices_commands <- api_get_device bulb ;;
  with_light_control devices_commands ;;;
  api_set_state (dev_id devices_commands) false ;;;
  invalidate_description ;;;
  ret EmptyString.

Definition switchOnBulb {R} (room : R) (bulb : Z) : M string :=
  get_gateway_and_api ;;;
  devices_commands <- api_get_device bulb ;;
  with_light_control devices_commands ;;;
  api_set_state (dev_id devices_commands) true ;;;
  invalidate_description ;;;
  ret EmptyString.

Definition setDimmerBulb {R} (room : R) (bulb : Z) (value : Z) : M string :=
  get_gateway_and_api ;;;
  devices_commands <- api_get_device bulb ;;
  with_light_control devices_commands ;;;
  api_set_dimmer (dev_id devices_commands) value ;;;
  invalidate_description ;;;
  ret EmptyString.

(** The loop [for member_command in group_commands.members()], shared in
    shape by the three fan-out handlers; [device_op] is the device-level
    handler called on a member with light control. *)
Definition fan_out (members : list Z) (device_op : Z -> M string) : M unit :=
  for_each members (fun member_command =>
    member <- api_get_device member_command ;;
    if has_light_control member
    then device_op (dev_id member) ;;; ret tt
    else ret tt).

Definition switchOffRoom (room : Z) : M string :=
  get_gateway_and_api ;;;
  group_commands <- api_get_group room ;;
  fan_out (member_ids group_commands) (switchOffBulb room) ;;;
  invalidate_description ;;;
  ret EmptyString.

Definition switchOnRoom (room : Z) : M string :=
  get_gateway_and_api ;;;
  group_commands <- api_get_group room ;;
  fan_out (member_ids group_commands) (switchOnBulb room) ;;;
  invalidate_description ;;;
  ret EmptyString.

Definition setDimmerRoom (room : Z) (value : Z) : M string :=
  get_gateway_and_api ;;;
  group_commands <- api_get_group room ;;
  fan_out (member_ids group_commands)
          (fun bulb => setDimmerBulb room bulb value) ;;;
  invalidate_description ;;;
  ret EmptyString.

Definition selectAmbianceRoom (room : Z) (ambiance : Z) : M string :=
  get_gateway_and_api ;;;
  group_commands <- api_get_group room ;;
  api_activate_mood (grp_id group_commands) ambiance ;;;
  invalidate_description ;;;
  ret EmptyString.

(** ** Vocabulary of the statements *)

Definition is_api (e : Event) : bool :=
  match e with EApi _ => true | _ => false end.

Definition is_fetch (e : Event) : bool :=
  match e with EFetch => true | _ => false end.

Definition is_invalidate (e : Event) : bool :=
  match e with EInvalidate => true | _ => false end.

(** Number of entries into the description builder recorded in a trace. *)
Definition builds (tr : list Event) : nat := length (List.filter is_fetch tr).

(** Number of executions of [invalidate_description] recorded in a trace. *)
Definition invalidations (tr : list Event) : nat :=
  length (List.filter is_invalidate tr).

(** The events a step from [w] to [w'] appended to the trace. *)
Definition emitted (w w' : World) : list Event :=
  drop (length (trace w)) (trace w').

(** What a piece of handler code leaves alone: the provisioning file, the
    clock, the lock, [LAST_FETCH] and the failure oracle.  The trace only
    grows, by events satisfying [P]; [CACHED_RESPONSE] is either untouched
    or, when invalidations are among the permitted events, cleared. *)
Record frame (P : Event -> bool) (w w' : World) : Prop := {
  fr_conf : conf_has_gateway w' = conf_has_gateway w;
  fr_clock : clock w' = clock w;
  fr_ticks : ticks w' = ticks w;
  fr_lock : lock w' = lock w;
  fr_last : LAST_FETCH w' = LAST_FETCH w;
  fr_fails : gw_fails (gw w') = gw_fails (gw w);
  fr_trace : exists l, trace w' = trace w ++ l /\ forallb P l = true;
  fr_cached : CACHED_RESPONSE w' = CACHED_RESPONSE w \/
              (CACHED_RESPONSE w' = None /\ P EInvalidate = true)
}.

Definition keeps (P : Event -> bool) {A} (m : M A) : Prop :=
  forall w, frame P w (snd (m w)).

Definition not_fetch (e : Event) : bool := negb (is_fetch e).

(** The only exceptions a computation can end in satisfy [S]. *)
Definition raises_only (S : Exn -> Prop) {A} (m : M A) : Prop :=
  forall w e w', m w = (Raise e, w') -> S e.

(** ** The dispatcher handlers, by shape

    The three device-level handlers differ only in the command they send and
    in its effect on the light; the three fan-out handlers differ only in
    the device-level handler they call.  [device_level] and [room_level]
    are these common shapes; the handlers above are instances of them
    (lemmas [switchOffBulb_shape] and following). *)

Definition turn (on : bool) (l : Light) : Light :=
  {| dimmer := dimmer l; state := on |}.

Definition dim (value : Z) (l : Light) : Light :=
  {| dimmer := value; state := state l |}.

Definition device_level (cmd : Z -> Command) (f : Light -> Light)
    (bulb : Z) : M string :=
  get_gateway_and_api ;;;
  devices_commands <- api_get_device bulb ;;
  with_light_control devices_commands ;;;
  request (cmd (dev_id devices_commands))
          (writing (dev_id devices_commands) f) ;;;
  invalidate_description ;;;
  ret EmptyString.

(** One iteration of the fan-out loop. *)
Definition member_step (device_op : Z -> M string) (member_command : Z)
    : M unit :=
  member <- api_get_device member_command ;;
  if has_light_control member
  then device_op (dev_id member) ;;; ret tt
  else ret tt.

Definition room_level (cmd : Z -> Command) (f : Light -> Light)
    (room : Z) : M string :=
  get_gateway_and_api ;;;
  group_commands <- api_get_group room ;;
  fan_out (member_ids group_commands) (device_level cmd f) ;;;
  invalidate_description ;;;
  ret EmptyString.

(** The three fan-outs, and the source handlers that implement each. *)
Inductive Fanout :=
| Power (on : bool)
| Dimmer (value : Z).

Definition device_op {R} (k : Fanout) (room : R) (bulb : Z) : M string :=
  match k with
  | Power true => switchOnBulb room bulb
  | Power false => switchOffBulb room bulb
  | Dimmer value => setDimmerBulb room bulb value
  end.

Definition room_op (k : Fanout) (room : Z) : M string :=
  match k with
  | Power true => switchOnRoom room
  | Power false => switchOffRoom room
  | Dimmer value => setDimmerRoom room value
  end.

Definition fanout_command (k : Fanout) (id : Z) : Command :=
  match k with
  | Power on => SetState id on
  | Dimmer value => SetDimmer id value
  end.

Definition fanout_effect (k : Fanout) : Light -> Light :=
  match k with
  | Power on => turn on
  | Dimmer value => dim value
  end.

(** ** Gateway conditions *)

(** The gateway is provisioned and answers every request. *)
Definition healthy (w : World) : Prop :=
  conf_has_gateway w = true /\ forall tr c, gw_fails (gw w) tr c = false.

(** Whether the device with this id has light control, if it exists. *)
Definition capability (g : Gateway) (id : Z) : option bool :=
  has_light_control <$> find_device g id.

Definition is_light (g : Gateway) (id : Z) : bool :=
  match capability g id with Some true => true | _ => false end.

Definition resolves (g : Gateway) (ids : list Z) : Prop :=
  forall id, In id ids -> is_Some (find_device g id).

(** The events one member of a served fan-out contributes: the member is
    fetched; a member with light control is fetched again by the
    device-level handler, commanded, and the cache invalidated. *)
Definition member_events (g : Gateway) (cmd : Z -> Command) (id : Z)
    : list Event :=
  if is_light g id
  then [EApi (GetDevice id); EApi (GetDevice id); EApi (cmd id); EInvalidate]
  else [EApi (GetDevice id)].

(** The device-level power commands among a list of events. *)
Definition power_commands (evs : list Event) : list (Z * bool) :=
  flat_map (fun e => match e with
                     | EApi (SetState id on) => [(id, on)]
                     | _ => []
                     end) evs.

(** The members of a room that have light control, in the room's order. *)
Definition light_members (g : Gateway) (room : Group) : list Z :=
  List.filter (is_light g) (member_ids room).

(** The events of a served fan-out over a room: the group is fetched, each
    member contributes its events, the cache is invalidated. *)
Definition fanout_events (g : Gateway) (k : Fanout) (room : Group)
    : list Event :=
  EApi (GetGroup (grp_id room))
  :: flat_map (member_events g (fanout_command k)) (member_ids room)
  ++ [EInvalidate].

(** A handler run from [w] returns, and [invalidate_description] is
    executed [n] times during the run, the last of them as the final
    event. *)
Definition invalidates (h : M string) (w : World) (n : nat) : Prop :=
  fst (h w) = Ret EmptyString /\
  invalidations (emitted w (snd (h w))) = n /\
  last (emitted w (snd (h w))) = Some EInvalidate.

(** ** Cache states and operation sequences *)

(** The state in which the module is loaded. *)
Definition initial (w : World) : Prop :=
  CACHED_RESPONSE w = None /\ LAST_FETCH w = None /\ lock w = false.

(** A cached value comes with a timestamp. *)
Definition stamped (w : World) : Prop :=
  is_Some (CACHED_RESPONSE w) -> is_Some (LAST_FETCH w).

(** The invariant of the spec's data model: the value is absent exactly
    when the timestamp is. *)
Definition value_iff_stamp (w : World) : Prop :=
  CACHED_RESPONSE w = None <-> LAST_FETCH w = None.

(** The operations a client can trigger: the two cache operations and the
    seven routes of the dispatcher. *)
Inductive Op :=
| CallGet
| CallInvalidate
| BulbOff (room : string) (bulb : Z)
| BulbOn (room : string) (bulb : Z)
| BulbDimmer (room : string) (bulb : Z) (value : Z)
| RoomOff (room : Z)
| RoomOn (room : Z)
| RoomDimmer (room : Z) (value : Z)
| RoomAmbiance (room : Z) (ambiance : Z).

Definition exec (op : Op) (w : World) : World :=
  match op with
  | CallGet => snd (get_description w)
  | CallInvalidate => snd (invalidate_description w)
  | BulbOff room bulb => snd (switchOffBulb room bulb w)
  | BulbOn room bulb => snd (switchOnBulb room bulb w)
  | BulbDimmer room bulb value => snd (setDimmerBulb room bulb value w)
  | RoomOff room => snd (switchOffRoom room w)
  | RoomOn room => snd (switchOnRoom room w)
  | RoomDimmer room value => snd (setDimmerRoom room value w)
  | RoomAmbiance room ambiance => snd (selectAmbianceRoom room ambiance w)
  end.

Definition run (ops : list Op) (w : World) : World :=
  foldl (fun w op => exec op w) w ops.

(** [get_description] from [w] enters the description builder. *)
Definition builder_invoked (w : World) : Prop :=
  (builds (trace w) < builds (trace (snd (get_description w))))%nat.

(** When [get_description] from [w] rebuilds successfully, the timestamp of
    that rebuild: the clock reading taken on its completion, which is the
    last reading of the call. *)
Definition rebuilt (w : World) : option Q :=
  let w' := snd (get_description w) in
  match fst (get_description w) with
  | Ret _ =>
      if (builds (trace w) <? builds (trace w'))%nat
      then Some (clock w' (pred (ticks w')))
      else None
  | Raise _ => None
  end.

(** The timestamp of the last successful rebuild in a sequence of operations
    started in [w]; [stamp] is the one before the sequence. *)
Fixpoint last_rebuild (ops : list Op) (w : World) (stamp : option Q)
    : option Q :=
  match ops with
  | [] => stamp
  | op :: ops' =>
      last_rebuild ops' (exec op w)
        match op with
        | CallGet => match rebuilt w with Some t => Some t | None => stamp end
        | _ => stamp
        end
  end.

(** ** A household, for the examples *)

Definition lamp : Device :=
  {| dev_id := 1; dev_name := "lamp";
     dev_lights := [{| dimmer := 10; state := true |}] |}.

Definition remote : Device :=
  {| dev_id := 2; dev_name := "remote"; dev_lights := [] |}.

Definition spot : Device :=
  {| dev_id := 3; dev_name := "spot";
     dev_lights := [{| dimmer := 200; state := false |}] |}.

Definition living : Group :=
  {| grp_id := 10; grp_name := "living"; member_ids := [1; 2; 3];
     grp_mood_id := 100 |}.

(** A room one of whose members, 7, is not a device of the gateway. *)
Definition attic : Group :=
  {| grp_id := 11; grp_name := "attic"; member_ids := [1; 7];
     grp_mood_id := 100 |}.

Definition relax : Mood := {| mood_id := 100; mood_name := "relax" |}.
Definition focus : Mood := {| mood_id := 101; mood_name := "focus" |}.

Definition home (rooms : list Group) (fails : list Event -> Command -> bool)
    : Gateway :=
  {| gw_devices := [lamp; remote; spot];
     gw_groups := rooms;
     gw_moods := [(10, relax); (10, focus); (11, relax)];
     gw_fails := fails |}.

Definition always_up (tr : list Event) (c : Command) : bool := false.

(** The gateway does not answer the power-off command for the lamp. *)
Definition lamp_stuck (tr : list Event) (c : Command) : bool :=
  match c with SetState 1 false => true | _ => false end.

(** The gateway answers until [n] events are on record, then no more. *)
Definition fails_after (n : nat) (tr : list Event) (c : Command) : bool :=
  (n <=? length tr)%nat.

(** Clocks: successive readings one second, or twenty seconds, apart. *)
Definition seconds (n : nat) : Q := inject_Z (Z.of_nat n).
Definition every_20s (n : nat) : Q := inject_Z (20 * Z.of_nat n).

(** The world at start-up. *)
Definition boot (g : Gateway) (clk : nat -> Q) : World :=
  {| gw := g; conf_has_gateway := true; trace := [];
     clock := clk; ticks := 0; lock := false;
     CACHED_RESPONSE := None; LAST_FETCH := None |}.

(** After one successful [get_description]: the view is cached, stamped 0. *)
Definition warm : World :=
  exec CallGet (boot (home [living] always_up) seconds).

(** The same, with a gateway that stops answering after that first build
    (which takes eleven events) and a clock that makes the entry stale at
    the next reading. *)
Definition aging : World :=
  exec CallGet (boot (home [living] (fails_after 11)) every_20s).

(** What remains of [get_description] once the staleness test has answered
    yes in world [w1] (the lock is held): the builder runs; on success its
    result and the time of completion are stored; the lock is released. *)
Definition rebuild_from (w1 : World) : Outcome (option Description) * World :=
  match fetch_description w1 with
  | (Ret d, w2) =>
      (Ret (Some d),
       set_lock false
         (set_LAST_FETCH (Some (clock w2 (ticks w2)))
            (tick (set_CACHED_RESPONSE (Some d) w2))))
  | (Raise e, w2) => (Raise e, set_lock false w2)
  end.

(** The exceptions the description builder can end in. *)
Definition builder_exn (e : Exn) : Prop :=
  match e with
  | RequestError | ClientError | AttributeError | IndexError | NameError => True
  | TypeError | RuntimeError | Blocked => False
  end.

(** A room without any light: only the remote. *)
Definition hall : Group :=
  {| grp_id := 12; grp_name := "hall"; member_ids := [2]; grp_mood_id := 100 |}.

(** The household at start-up, with a gateway that answers. *)
Definition house : World := boot (home [living; hall] always_up) seconds.

(** The same with a gateway that does not answer the lamp's power-off. *)
Definition house_stuck : World := boot (home [living; hall] lamp_stuck) seconds.

(** A smaller household, every room of which can be described. *)
Definition cottage : World := boot (home [living] always_up) seconds.

(** The cottage before provisioning: [config.json] has no gateway entry. *)
Definition cottage_unprovisioned : World :=
  {| gw := home [living] always_up; conf_has_gateway := false; trace := [];
     clock := seconds; ticks := 0; lock := false;
     CACHED_RESPONSE := None; LAST_FETCH := None |}.

(** The cottage with a gateway that never answers. *)
Definition cottage_offline : World :=
  boot (home [living] (fails_after 0)) seconds.

(** ** Vocabulary of the further properties *)

(** Requests that only read the gateway. *)
Definition is_read (e : Event) : bool :=
  match e with
  | EApi (GetDevices | GetDevice _ | GetGroups | GetGroup _
         | GetMoods _ | GetMood _ _) => true
  | _ => false
  end.

(** A computation leaves the gateway as it found it. *)
Definition leaves_gateway {A} (m : M A) : Prop :=
  forall w, gw (snd (m w)) = gw w.

(** A computation stops at the first request the gateway fails: such a
    request is the last event it records, and its outcome is the
    [RequestError] of that request.  The failure oracle itself is left as
    it was. *)
Definition fail_stop {A} (m : M A) : Prop :=
  forall w, exists l,
    trace (snd (m w)) = trace w ++ l /\
    gw_fails (gw (snd (m w))) = gw_fails (gw w) /\
    forall l1 c l2,
      l = l1 ++ EApi c :: l2 ->
      gw_fails (gw w) (trace w ++ l1) c = true ->
      l2 = [] /\ fst (m w) = Raise RequestError.

(** The gateway answers everything but the listing of the groups. *)
Definition groups_down (tr : list Event) (c : Command) : bool :=
  match c with GetGroups => true | _ => false end.

Definition cottage_groups_down : World :=
  boot (home [living] groups_down) seconds.

(** ** The description as a function of the gateway's inventory *)

(** The entry of a device in a room's bulb list: one bulb, read off light
    0, for a device with light control; nothing otherwise. *)
Definition bulb_of (d : Device) : list Bulb :=
  match dev_lights d with
  | l :: _ => [{| b_name := dev_name d; b_dimmer := dimmer l;
                  b_state := state l; b_id := dev_id d |}]
  | [] => []
  end.

Definition ambiance_of (m : Mood) : Ambiance :=
  {| a_name := mood_name m; a_id := mood_id m |}.

(** The devices of a room, in the order of its member ids. *)
Definition member_devices (g : Gateway) (room : Group) : list Device :=
  omap (find_device g) (member_ids room).

Definition room_view (g : Gateway) (room : Group) : RoomView :=
  {| rv_name := grp_name room;
     rv_bulbs := flat_map bulb_of (member_devices g room);
     rv_ambiances := map ambiance_of (moods_of g (grp_id room));
     rv_id := grp_id room;
     rv_ambiance_active := grp_mood_id room |}.

(** One room view per group, in the order of the gateway's listing. *)
Definition describe (g : Gateway) : Description :=
  map (room_view g) (gw_groups g).

(** The requests of a build, room by room and as a whole. *)
Definition room_requests (g : Gateway) (room : Group) : list Event :=
  EApi (GetMood (grp_id room) (grp_mood_id room))
  :: EApi (GetMoods (grp_id room))
  :: map (fun m => EApi (GetMood (grp_id room) (mood_id m)))
         (moods_of g (grp_id room)).

Definition build_requests (g : Gateway) : list Event :=
  EFetch
  :: EApi GetDevices
  :: map (fun d => EApi (GetDevice (dev_id d))) (gw_devices g)
  ++ EApi GetGroups
  :: map (fun r => EApi (GetGroup (grp_id r))) (gw_groups g)
  ++ flat_map (room_requests g) (gw_groups g).

(** The gateway's ids identify: no two devices, no two groups, no two moods
    of a group share an id. *)
Record unique_ids (g : Gateway) : Prop := {
  uid_devices : NoDup (map dev_id (gw_devices g));
  uid_groups : NoDup (map grp_id (gw_groups g));
  uid_moods : forall room, In room (gw_groups g) ->
              NoDup (map mood_id (moods_of g (grp_id room)))
}.

(** Every group's members are devices of the gateway and its active mood is
    one of its moods. *)
Record complete (g : Gateway) : Prop := {
  cpl_members : forall room, In room (gw_groups g) ->
                resolves g (member_ids room);
  cpl_active : forall room, In room (gw_groups g) ->
               is_Some (find_mood g (grp_id room) (grp_mood_id room))
}.

(** * Verification *)

(** ** Frame rules *)

Section Frame.
Variable P : Event -> bool.

Lemma frame_refl w : frame P w w.
Proof.
  split; auto. exists []. split; [by rewrite app_nil_r | done].
Qed.

Lemma frame_trans w1 w2 w3 : frame P w1 w2 -> frame P w2 w3 -> frame P w1 w3.
Proof.
  intros [c1 k1 t1 l1 f1 o1 [la [ta pa]] h1] [c2 k2 t2 l2 f2 o2 [lb [tb pb]] h2].
  split; try congruence.
  - exists (la ++ lb). split.
    + rewrite tb, ta. by rewrite app_assoc.
    + rewrite forallb_app, pa, pb. done.
  - destruct h2 as [h2 | [h2 p2]]; [ | by right ].
    destruct h1 as [h1 | [h1 p1]]; [left | right]; split_and?; congruence.
Qed.

Lemma keeps_ret {A} (a : A) : keeps P (ret a).
Proof. intros w. apply frame_refl. Qed.

Lemma keeps_raise {A} e : keeps P (@raise A e).
Proof. intros w. apply frame_refl. Qed.

Lemma keeps_gets {A} (f : World -> A) : keeps P (gets f).
Proof. intros w. apply frame_refl. Qed.

Lemma keeps_bind {A B} (m : M A) (k : A -> M B) :
  keeps P m -> (forall a, keeps P (k a)) -> keeps P (bind m k).
Proof.
  intros Hm Hk w. specialize (Hm w). unfold bind.
  destruct (m w) as [[a | e] w1]; simpl in *; [ | done ].
  eapply frame_trans; [ exact Hm | apply Hk ].
Qed.

Lemma keeps_mapM {A B} (f : A -> M B) xs :
  (forall x, keeps P (f x)) -> keeps P (mapM f xs).
Proof.
  intros Hf. induction xs as [ | x xs IH]; simpl.
  - apply keeps_ret.
  - apply keeps_bind; [ apply Hf | ]. intros y.
    apply keeps_bind; [ exact IH | ]. intros ys. apply keeps_ret.
Qed.

Lemma keeps_for_each {A} xs (body : A -> M unit) :
  (forall x, keeps P (body x)) -> keeps P (for_each xs body).
Proof.
  intros Hb. induction xs as [ | x xs IH]; simpl.
  - apply keeps_ret.
  - apply keeps_bind; [ apply Hb | ]. intros _. exact IH.
Qed.

Lemma keeps_emit e : P e = true -> keeps P (emit e).
Proof.
  intros He w. split; simpl; auto.
  exists [e]. split; [ done | ]. simpl. by rewrite He.
Qed.

Lemma keeps_get_gateway_and_api : keeps P get_gateway_and_api.
Proof.
  unfold get_gateway_and_api. apply keeps_bind; [ apply keeps_gets | ].
  intros [ | ]; [ apply keeps_ret | apply keeps_raise ].
Qed.

Hypothesis P_api : forall c, P (EApi c) = true.

Lemma frame_log_api c w : frame P w (log (EApi c) w).
Proof.
  split; simpl; auto.
  exists [EApi c]. split; [ done | ]. simpl. by rewrite P_api.
Qed.

Lemma keeps_request {A} c (serve : Gateway -> option (A * Gateway)) :
  (forall g a g', serve g = Some (a, g') -> gw_fails g' = gw_fails g) ->
  keeps P (request c serve).
Proof.
  intros Hs w. unfold request.
  destruct (gw_fails (gw w) (trace w) c); simpl; [ apply frame_log_api | ].
  destruct (serve (gw w)) as [[a g'] | ] eqn:E; simpl; [ | apply frame_log_api ].
  eapply frame_trans; [ apply (frame_log_api c) | ].
  split; simpl; auto.
  - eapply Hs, E.
  - exists []. split; [ by rewrite app_nil_r | done ].
Qed.
End Frame.

Ltac frame_step :=
  match goal with
  | |- keeps _ (bind _ _) => apply keeps_bind; [ | intros ? ]
  | |- keeps _ (ret _) => apply keeps_ret
  | |- keeps _ (raise _) => apply keeps_raise
  | |- keeps _ (gets _) => apply keeps_gets
  | |- keeps _ get_gateway_and_api => apply keeps_get_gateway_and_api
  | |- keeps _ (mapM _ _) => apply keeps_mapM; intros ?
  | |- keeps _ (for_each _ _) => apply keeps_for_each; intros ?
  | |- keeps _ (if ?b then _ else _) => destruct b
  | |- keeps _ (match ?x with _ => _ end) => destruct x
  end.

Ltac to_keeps :=
  match goal with
  | |- frame ?P ?w (snd (?m ?w)) =>
      cut (keeps P m); [ let H := fresh in intros H; exact (H w) | ]
  end.

Lemma bind_emit {B} e (k : unit -> M B) w :
  bind (emit e) k w = k tt (log e w).
Proof. reflexivity. Qed.

Lemma reading_inv {A} (f : Gateway -> option A) g a g' :
  reading f g = Some (a, g') -> g' = g /\ f g = Some a.
Proof.
  unfold reading. destruct (f g); intros H; inversion H; auto.
Qed.

Lemma writing_inv id f g u g' :
  writing id f g = Some (u, g') ->
  g' = update_device id f g /\ is_Some (find_device g id).
Proof.
  unfold writing. destruct (find_device g id) eqn:E; intros H; inversion H.
  split; [ done | by eexists ].
Qed.

Section ApiFrames.
Variable P : Event -> bool.
Hypothesis P_api : forall c, P (EApi c) = true.

Lemma keeps_reading {A} c (f : Gateway -> option A) :
  keeps P (request c (reading f)).
Proof.
  apply keeps_request; [ exact P_api | ].
  intros g a g' H. apply reading_inv in H as [-> _]. done.
Qed.

Lemma keeps_writing c id f : keeps P (request c (writing id f)).
Proof.
  apply keeps_request; [ exact P_api | ].
  intros g a g' H. apply writing_inv in H as [-> _]. done.
Qed.

Lemma keeps_api_activate_mood group mood :
  keeps P (api_activate_mood group mood).
Proof.
  apply keeps_request; [ exact P_api | ].
  intros g a g' H. destruct (find_group g group); inversion H. done.
Qed.

Lemma keeps_collect_bulbs room_devices bulbs :
  keeps P (collect_bulbs room_devices bulbs).
Proof.
  revert bulbs. induction room_devices as [ | device rest IH]; intros bulbs.
  - apply keeps_ret.
  - simpl. unfold first_light, attr.
    repeat first [ apply IH | frame_step ].
Qed.

Lemma keeps_describe_room device_index room :
  keeps P (describe_room device_index room).
Proof.
  unfold describe_room.
  repeat first [ apply keeps_reading | apply keeps_collect_bulbs | frame_step ].
Qed.

Hypothesis P_invalidate : P EInvalidate = true.

Lemma keeps_invalidate_description : keeps P invalidate_description.
Proof.
  intros w. split; simpl; auto.
  exists [EInvalidate]. split; [ done | ]. simpl. by rewrite P_invalidate.
Qed.

Lemma keeps_device_level cmd f bulb : keeps P (device_level cmd f bulb).
Proof.
  unfold device_level, with_light_control.
  repeat first [ apply keeps_reading | apply keeps_writing
               | apply keeps_invalidate_description | frame_step ].
Qed.

Lemma keeps_room_level cmd f room : keeps P (room_level cmd f room).
Proof.
  unfold room_level, fan_out.
  repeat first [ apply keeps_reading | apply keeps_device_level
               | apply keeps_invalidate_description | frame_step ].
Qed.

Lemma keeps_selectAmbianceRoom room ambiance :
  keeps P (selectAmbianceRoom room ambiance).
Proof.
  unfold selectAmbianceRoom.
  repeat first [ apply keeps_reading | apply keeps_api_activate_mood
               | apply keeps_invalidate_description | frame_step ].
Qed.
End ApiFrames.

(** The handlers are instances of the two shapes. *)

Lemma switchOffBulb_shape {R} (room : R) :
  switchOffBulb room = device_level (fun id => SetState id false) (turn false).
Proof. reflexivity. Qed.

Lemma switchOnBulb_shape {R} (room : R) :
  switchOnBulb room = device_level (fun id => SetState id true) (turn true).
Proof. reflexivity. Qed.

Lemma setDimmerBulb_shape {R} (room : R) value :
  (fun bulb => setDimmerBulb room bulb value)
  = device_level (fun id => SetDimmer id value) (dim value).
Proof. reflexivity. Qed.

Lemma switchOffRoom_shape :
  switchOffRoom = room_level (fun id => SetState id false) (turn false).
Proof. reflexivity. Qed.

Lemma switchOnRoom_shape :
  switchOnRoom = room_level (fun id => SetState id true) (turn true).
Proof. reflexivity. Qed.

Lemma setDimmerRoom_shape value :
  (fun room => setDimmerRoom room value)
  = room_level (fun id => SetDimmer id value) (dim value).
Proof. reflexivity. Qed.

(** The builder touches nothing but the gateway: after its entry is
    recorded, only requests follow. *)
Lemma fetch_description_frame w :
  frame is_api (log EFetch w) (snd (fetch_description w)).
Proof.
  unfold fetch_description. rewrite bind_emit. to_keeps.
  repeat first [ apply keeps_reading | apply keeps_describe_room
               | frame_step ]; done.
Qed.

(** ** The cache, case by case *)

Lemma Qgtb_lt a b : Qgtb a b = true <-> (b < a)%Q.
Proof.
  unfold Qgtb. rewrite negb_true_iff. split.
  - intros H. apply Qnot_le_lt. intros Hle.
    apply Qle_bool_iff in Hle. congruence.
  - intros H. destruct (Qle_bool a b) eqn:E; [ | done ].
    apply Qle_bool_iff in E. exfalso. revert E. by apply Qlt_not_le.
Qed.

Lemma fetch_description_lock w :
  lock (snd (fetch_description w)) = lock w.
Proof. by destruct (fetch_description_frame w). Qed.

Ltac open_get :=
  unfold get_description, try_finally, lock_acquire, lock_release, stale,
    rebuild_from, bind, gets, modify, time_time, ret, raise; simpl.

Lemma get_description_blocked w :
  lock w = true -> get_description w = (Raise Blocked, w).
Proof. intros L. open_get. by rewrite L. Qed.

Lemma get_description_miss w :
  lock w = false -> CACHED_RESPONSE w = None ->
  get_description w = rebuild_from (set_lock true w).
Proof.
  intros L C. open_get. rewrite L; simpl. rewrite C; simpl.
  pose proof (fetch_description_lock (set_lock true w)) as Lk.
  destruct (fetch_description (set_lock true w)) as [[d | e] w2];
    simpl in *; by rewrite Lk.
Qed.

Lemma get_description_stale w d t :
  lock w = false -> CACHED_RESPONSE w = Some d -> LAST_FETCH w = Some t ->
  (10 < clock w (ticks w) - t)%Q ->
  get_description w = rebuild_from (tick (set_lock true w)).
Proof.
  intros L C F H. apply Qgtb_lt in H. open_get.
  rewrite L; simpl. rewrite C; simpl. rewrite F; simpl. rewrite H; simpl.
  pose proof (fetch_description_lock (tick (set_lock true w))) as Lk.
  destruct (fetch_description (tick (set_lock true w))) as [[d' | e] w2];
    simpl in *; by rewrite Lk.
Qed.

Lemma get_description_hit w d t :
  lock w = false -> CACHED_RESPONSE w = Some d -> LAST_FETCH w = Some t ->
  ~ (10 < clock w (ticks w) - t)%Q ->
  get_description w = (Ret (Some d), set_lock false (tick (set_lock true w))).
Proof.
  intros L C F H. rewrite <- Qgtb_lt in H. apply not_true_is_false in H.
  open_get. rewrite L; simpl. rewrite C; simpl. rewrite F; simpl.
  rewrite H; simpl. by rewrite C.
Qed.

Lemma get_description_unstamped w d :
  lock w = false -> CACHED_RESPONSE w = Some d -> LAST_FETCH w = None ->
  get_description w = (Raise TypeError, set_lock false (tick (set_lock true w))).
Proof.
  intros L C F. open_get. rewrite L; simpl. rewrite C; simpl.
  by rewrite F.
Qed.

Lemma builds_app a b : builds (a ++ b) = (builds a + builds b)%nat.
Proof. unfold builds. by rewrite List.filter_app, length_app. Qed.

Lemma builds_api l : forallb is_api l = true -> builds l = 0%nat.
Proof.
  induction l as [ | e l IH]; [ done | ]. simpl.
  intros H. apply andb_true_iff in H as [He Hl].
  destruct e; try discriminate. exact (IH Hl).
Qed.

Lemma fetch_description_builds w :
  builds (trace (snd (fetch_description w))) = S (builds (trace w)).
Proof.
  destruct (fetch_description_frame w) as [_ _ _ _ _ _ [l [Ht Hl]] _].
  rewrite Ht. simpl. rewrite !builds_app, (builds_api l Hl).
  change (builds [EFetch]) with 1%nat. lia.
Qed.

(** The effect of a rebuild on the cache. *)
Lemma rebuild_from_spec w1 :
  builds (trace (snd (rebuild_from w1))) = S (builds (trace w1)) /\
  lock (snd (rebuild_from w1)) = false /\
  clock (snd (rebuild_from w1)) = clock w1 /\
  match fst (rebuild_from w1) with
  | Ret v =>
      is_Some v /\
      CACHED_RESPONSE (snd (rebuild_from w1)) = v /\
      LAST_FETCH (snd (rebuild_from w1)) = Some (clock w1 (ticks w1)) /\
      ticks (snd (rebuild_from w1)) = S (ticks w1)
  | Raise e =>
      fst (fetch_description w1) = Raise e /\
      CACHED_RESPONSE (snd (rebuild_from w1)) = CACHED_RESPONSE w1 /\
      LAST_FETCH (snd (rebuild_from w1)) = LAST_FETCH w1 /\
      ticks (snd (rebuild_from w1)) = ticks w1
  end.
Proof.
  pose proof (fetch_description_builds w1) as Hb.
  destruct (fetch_description_frame w1) as [_ Hc Ht _ Hf _ _ [Hv | [_ Hv]]];
    [ | discriminate ].
  unfold rebuild_from.
  destruct (fetch_description w1) as [[d | e] w2]; simpl in *.
  - rewrite Hc, Ht. split_and?; first [ done | by eexists ].
  - split_and?; done.
Qed.

(** The staleness test either sends [get_description] to the builder or
    lets it answer from the cache. *)
Lemma get_description_refresh w w0 :
  lock w = false -> stale (set_lock true w) = (Ret true, w0) ->
  get_description w = rebuild_from w0.
Proof.
  intros L. unfold stale, bind, gets, time_time, ret, raise. simpl.
  destruct (CACHED_RESPONSE w) as [d | ] eqn:C; simpl.
  - destruct (LAST_FETCH w) as [t | ] eqn:F; simpl; [ | discriminate ].
    intros H. injection H as Hq Hw. rewrite <- Hw.
    apply (get_description_stale w d t L C F). by apply Qgtb_lt.
  - intros H. inversion H. by apply get_description_miss.
Qed.

Lemma get_description_fresh w w0 :
  lock w = false -> stale (set_lock true w) = (Ret false, w0) ->
  get_description w = (Ret (CACHED_RESPONSE w), set_lock false w0) /\
  is_Some (CACHED_RESPONSE w) /\ trace w0 = trace w /\ gw w0 = gw w.
Proof.
  intros L. unfold stale, bind, gets, time_time, ret, raise. simpl.
  destruct (CACHED_RESPONSE w) as [d | ] eqn:C; simpl; [ | discriminate ].
  destruct (LAST_FETCH w) as [t | ] eqn:F; simpl; [ | discriminate ].
  intros H. injection H as Hq Hw. rewrite <- Hw.
  split_and?; try done.
  apply (get_description_hit w d t L C F).
  rewrite <- Qgtb_lt. by rewrite Hq.
Qed.

(** ** What each operation does to the cache *)

Lemma exec_dispatch_frame op w :
  op <> CallGet -> frame not_fetch w (exec op w).
Proof.
  intros Hop. destruct op; simpl; try done.
  - by apply keeps_invalidate_description.
  - rewrite switchOffBulb_shape. by apply keeps_device_level.
  - rewrite switchOnBulb_shape. by apply keeps_device_level.
  - change (setDimmerBulb room bulb value)
      with ((fun bulb => setDimmerBulb room bulb value) bulb).
    rewrite setDimmerBulb_shape. by apply keeps_device_level.
  - rewrite switchOffRoom_shape. by apply keeps_room_level.
  - rewrite switchOnRoom_shape. by apply keeps_room_level.
  - change (setDimmerRoom room value)
      with ((fun room => setDimmerRoom room value) room).
    rewrite setDimmerRoom_shape. by apply keeps_room_level.
  - by apply keeps_selectAmbianceRoom.
Qed.

(** A call of [get_description] that goes to the builder. *)
Lemma rebuild_case w w1 :
  get_description w = rebuild_from w1 ->
  trace w1 = trace w -> CACHED_RESPONSE w1 = CACHED_RESPONSE w ->
  LAST_FETCH w1 = LAST_FETCH w ->
  lock (exec CallGet w) = false /\
  builds (trace (exec CallGet w)) = S (builds (trace w)) /\
  match fst (get_description w) with
  | Ret v =>
      is_Some v /\ CACHED_RESPONSE (exec CallGet w) = v /\
      is_Some (rebuilt w) /\ LAST_FETCH (exec CallGet w) = rebuilt w
  | Raise e =>
      CACHED_RESPONSE (exec CallGet w) = CACHED_RESPONSE w /\
      LAST_FETCH (exec CallGet w) = LAST_FETCH w /\ rebuilt w = None
  end.
Proof.
  intros Hg Ht Hc Hl. unfold rebuilt, exec. rewrite Hg.
  destruct (rebuild_from_spec w1) as (Hb & Hk & Hclk & Hr).
  rewrite Ht in Hb. rewrite Hb. split_and?; try done.
  destruct (rebuild_from w1).1 as [v | e].
  - destruct Hr as (Hv & Hcv & Hlf & Htk).
    replace (builds (trace w) <? S (builds (trace w)))%nat with true
      by (symmetry; apply Nat.ltb_lt; lia).
    rewrite Htk, Hclk. simpl. split_and?; first [ done | by eexists ].
  - destruct Hr as (_ & Hcv & Hlf & _). split_and?; congruence.
Qed.

(** A call of [get_description] answered from the cache. *)
Lemma hit_case w d t :
  lock w = false -> CACHED_RESPONSE w = Some d -> LAST_FETCH w = Some t ->
  ~ (10 < clock w (ticks w) - t)%Q ->
  fst (get_description w) = Ret (Some d) /\
  lock (exec CallGet w) = false /\
  trace (exec CallGet w) = trace w /\ gw (exec CallGet w) = gw w /\
  CACHED_RESPONSE (exec CallGet w) = Some d /\
  LAST_FETCH (exec CallGet w) = Some t /\ rebuilt w = None.
Proof.
  intros L C F H. unfold rebuilt, exec.
  rewrite (get_description_hit w d t L C F H). simpl.
  split_and?; try done. by rewrite Nat.ltb_irrefl.
Qed.

Lemma elapsed_dec (now t : Q) : {(10 < now - t)%Q} + {~ (10 < now - t)%Q}.
Proof.
  destruct (Qlt_le_dec 10 (now - t)) as [H | H]; [ by left | right ].
  by apply Qle_not_lt.
Qed.

(** [get_description] keeps the lock free and a cached value stamped, and
    [LAST_FETCH] moves exactly on a successful rebuild. *)
Lemma exec_get_spec w :
  lock w = false -> stamped w ->
  lock (exec CallGet w) = false /\ stamped (exec CallGet w) /\
  LAST_FETCH (exec CallGet w)
  = match rebuilt w with Some t => Some t | None => LAST_FETCH w end.
Proof.
  intros L S.
  assert (Hre : forall w1, get_description w = rebuild_from w1 ->
            trace w1 = trace w -> CACHED_RESPONSE w1 = CACHED_RESPONSE w ->
            LAST_FETCH w1 = LAST_FETCH w ->
            lock (exec CallGet w) = false /\ stamped (exec CallGet w) /\
            LAST_FETCH (exec CallGet w)
            = match rebuilt w with Some t => Some t | None => LAST_FETCH w end).
  { intros w1 Hg Ht Hc Hl.
    destruct (rebuild_case w w1 Hg Ht Hc Hl) as (Hk & _ & Hr).
    split; [ done | ]. unfold stamped.
    destruct (get_description w).1 as [v | e].
    - destruct Hr as (_ & _ & [t Hs] & Hlf). rewrite Hlf, Hs. split; eauto.
    - destruct Hr as (Hcv & Hlf & Hs). rewrite Hcv, Hlf, Hs. split; eauto. }
  destruct (CACHED_RESPONSE w) as [d | ] eqn:C.
  - destruct S as [t F]; [ by eexists | ].
    destruct (elapsed_dec (clock w (ticks w)) t) as [H | H].
    + by apply (Hre _ (get_description_stale w d t L C F H)).
    + destruct (hit_case w d t L C F H) as (_ & Hk & _ & _ & Hc & Hl & Hs).
      unfold stamped. rewrite Hc, Hl, Hs, F. split_and?; eauto.
  - by apply (Hre _ (get_description_miss w L C)).
Qed.

Lemma dispatch_rebuilds_nothing op w :
  op <> CallGet ->
  lock (exec op w) = lock w /\ LAST_FETCH (exec op w) = LAST_FETCH w /\
  (stamped w -> stamped (exec op w)).
Proof.
  intros Hop.
  destruct (exec_dispatch_frame op w Hop) as [_ _ _ Hl Hf _ _ Hc].
  split_and?; try done. unfold stamped. rewrite Hf.
  destruct Hc as [-> | [-> _]]; [ done | ]. by intros _ [? ?].
Qed.

(** Over any sequence of operations from the start, the lock ends free, a
    cached value is stamped, and [LAST_FETCH] holds the timestamp of the
    last successful rebuild. *)
Lemma run_spec ops : forall w stamp,
  lock w = false -> stamped w -> LAST_FETCH w = stamp ->
  lock (run ops w) = false /\ stamped (run ops w) /\
  LAST_FETCH (run ops w) = last_rebuild ops w stamp.
Proof.
  induction ops as [ | op ops IH]; intros w stamp L S F; [ done | ].
  change (run (op :: ops) w) with (run ops (exec op w)). simpl last_rebuild.
  assert (op = CallGet \/ op <> CallGet) as [-> | Hop]
    by (destruct op; first [ by left | by right ]).
  - destruct (exec_get_spec w L S) as (L' & S' & F').
    apply IH; try done. by rewrite F', F.
  - destruct (dispatch_rebuilds_nothing op w Hop) as (L' & F' & S').
    replace (match op with
             | CallGet => match rebuilt w with Some t => Some t | None => stamp end
             | _ => stamp
             end) with stamp by (by destruct op).
    apply IH; [ congruence | auto | congruence ].
Qed.

Lemma initial_spec w :
  initial w -> lock w = false /\ stamped w /\ LAST_FETCH w = None.
Proof.
  intros (C & F & L). split_and?; try done. unfold stamped. rewrite C.
  by intros [? ?].
Qed.

(** ** Which exceptions can occur *)

Section Raises.
Variable S : Exn -> Prop.

Lemma raises_ret {A} (a : A) : raises_only S (ret a).
Proof. intros w e w' H. discriminate. Qed.

Lemma raises_gets {A} (f : World -> A) : raises_only S (gets f).
Proof. intros w e w' H. discriminate. Qed.

Lemma raises_emit ev : raises_only S (emit ev).
Proof. intros w e w' H. discriminate. Qed.

Lemma raises_raise {A} e : S e -> raises_only S (@raise A e).
Proof. intros He w e' w' H. by inversion H; subst. Qed.

Lemma raises_bind {A B} (m : M A) (k : A -> M B) :
  raises_only S m -> (forall a, raises_only S (k a)) ->
  raises_only S (bind m k).
Proof.
  intros Hm Hk w e w'. unfold bind.
  destruct (m w) as [[a | e1] w1] eqn:E.
  - apply Hk.
  - intros H. inversion H; subst. eapply Hm, E.
Qed.

Lemma raises_mapM {A B} (f : A -> M B) xs :
  (forall x, raises_only S (f x)) -> raises_only S (mapM f xs).
Proof.
  intros Hf. induction xs as [ | x xs IH]; simpl.
  - apply raises_ret.
  - apply raises_bind; [ apply Hf | ]. intros y.
    apply raises_bind; [ exact IH | ]. intros ys. apply raises_ret.
Qed.

Hypothesis S_request : S RequestError.
Hypothesis S_client : S ClientError.

Lemma raises_request {A} c (serve : Gateway -> option (A * Gateway)) :
  raises_only S (request c serve).
Proof.
  intros w e w'. unfold request.
  destruct (gw_fails (gw w) (trace w) c).
  - intros H. by inversion H; subst.
  - destruct (serve (gw w)) as [[a g'] | ]; intros H; inversion H; by subst.
Qed.
End Raises.

Ltac raises_step :=
  match goal with
  | |- raises_only _ (bind _ _) => apply raises_bind; [ | intros ? ]
  | |- raises_only _ (ret _) => apply raises_ret
  | |- raises_only _ (gets _) => apply raises_gets
  | |- raises_only _ (emit _) => apply raises_emit
  | |- raises_only _ (raise _) => apply raises_raise; exact I
  | |- raises_only _ (request _ _) => apply raises_request; exact I
  | |- raises_only _ (mapM _ _) => apply raises_mapM; intros ?
  | |- raises_only _ (if ?b then _ else _) => destruct b
  | |- raises_only _ (match ?x with _ => _ end) => destruct x
  end.

Lemma collect_bulbs_raises room_devices bulbs :
  raises_only builder_exn (collect_bulbs room_devices bulbs).
Proof.
  revert bulbs. induction room_devices as [ | device rest IH]; intros bulbs.
  - apply raises_ret.
  - simpl. unfold first_light, attr. repeat first [ apply IH | raises_step ].
Qed.

Lemma fetch_description_raises : raises_only builder_exn fetch_description.
Proof.
  unfold fetch_description, describe_room, get_gateway_and_api, api_get_devices,
    api_get_device, api_get_groups, api_get_group, api_get_moods, api_get_mood.
  repeat first [ apply collect_bulbs_raises | raises_step ].
Qed.

(** ** The cache: theorems *)

Lemma stale_cache w b w0 :
  stale w = (Ret b, w0) ->
  CACHED_RESPONSE w0 = CACHED_RESPONSE w /\ LAST_FETCH w0 = LAST_FETCH w /\
  trace w0 = trace w /\ gw w0 = gw w.
Proof.
  unfold stale, bind, gets, time_time, ret, raise. simpl.
  destruct (CACHED_RESPONSE w) eqn:C; simpl.
  - destruct (LAST_FETCH w) eqn:F; simpl; intros H; [ | discriminate ].
    injection H as _ <-. by split_and?.
  - intros H. injection H as _ <-. by split_and?.
Qed.

(** C5.  Whatever the state of the cache, [invalidate_description] returns
    and leaves no cached value, and the [get_description] that follows goes
    to the description builder, whatever the clock and [LAST_FETCH] say: its
    outcome is that of the rebuild, and one more entry into the builder is
    on record. *)
Theorem invalidate_forces_rebuild (w : World) :
  lock w = false ->
  fst (invalidate_description w) = Ret tt /\
  CACHED_RESPONSE (exec CallInvalidate w) = None /\
  get_description (exec CallInvalidate w)
  = rebuild_from (set_lock true (exec CallInvalidate w)) /\
  builder_invoked (exec CallInvalidate w) /\
  builds (trace (exec CallGet (exec CallInvalidate w)))
  = S (builds (trace (exec CallInvalidate w))).
Proof.
  intros L.
  assert (Hg : get_description (exec CallInvalidate w)
               = rebuild_from (set_lock true (exec CallInvalidate w)))
    by (by apply get_description_miss).
  destruct (rebuild_case _ _ Hg eq_refl eq_refl eq_refl) as (_ & Hb & _).
  split_and?; try done. unfold builder_invoked. fold (exec CallGet (exec CallInvalidate w)).
  rewrite Hb. lia.
Qed.

(** C4.  If the staleness test of [get_description] asks for a rebuild and
    the description builder raises, then [get_description] raises the same
    exception, never returning the earlier value, and [CACHED_RESPONSE] and
    [LAST_FETCH] are what they were before the call; the lock is free
    again. *)
Theorem failed_rebuild_leaves_cache (w w0 w1 : World) (e : Exn) :
  lock w = false ->
  stale (set_lock true w) = (Ret true, w0) ->
  fetch_description w0 = (Raise e, w1) ->
  fst (get_description w) = Raise e /\
  CACHED_RESPONSE (snd (get_description w)) = CACHED_RESPONSE w /\
  LAST_FETCH (snd (get_description w)) = LAST_FETCH w /\
  lock (snd (get_description w)) = false.
Proof.
  intros L Hs Hf.
  rewrite (get_description_refresh w w0 L Hs).
  unfold rebuild_from. rewrite Hf. simpl.
  destruct (fetch_description_frame w0) as [_ _ _ _ Hl _ _ [Hc | [_ Hc]]];
    [ | discriminate ].
  rewrite Hf in Hl, Hc. simpl in Hl, Hc. rewrite Hl, Hc.
  destruct (stale_cache _ _ _ Hs) as (-> & -> & _).
  by split_and?.
Qed.

Lemma invalidate_forces_rebuild_witness :
  lock warm = false /\
  is_Some (CACHED_RESPONSE warm) /\
  CACHED_RESPONSE (exec CallInvalidate warm) = None /\
  builder_invoked (exec CallInvalidate warm).
Proof.
  assert (L : lock warm = false) by (vm_compute; reflexivity).
  split; [ exact L | ].
  split; [ vm_compute; eexists; reflexivity | ].
  pose proof (invalidate_forces_rebuild warm L) as H.
  split; [ exact (proj1 (proj2 H)) | exact (proj1 (proj2 (proj2 (proj2 H)))) ].
Defined.

Lemma failed_rebuild_leaves_cache_witness :
  lock aging = false /\
  is_Some (CACHED_RESPONSE aging) /\
  fst (get_description aging) = Raise RequestError /\
  CACHED_RESPONSE (snd (get_description aging)) = CACHED_RESPONSE aging /\
  LAST_FETCH (snd (get_description aging)) = LAST_FETCH aging.
Proof.
  assert (L : lock aging = false) by (vm_compute; reflexivity).
  assert (Hs : stale (set_lock true aging)
               = (Ret true, tick (set_lock true aging)))
    by (vm_compute; reflexivity).
  assert (Hf : fetch_description (tick (set_lock true aging))
               = (Raise RequestError,
                  snd (fetch_description (tick (set_lock true aging)))))
    by (vm_compute; reflexivity).
  split; [ exact L | ].
  split; [ vm_compute; eexists; reflexivity | ].
  pose proof (failed_rebuild_leaves_cache aging _ _ _ L Hs Hf) as H.
  split; [ exact (proj1 H) | ].
  split; [ exact (proj1 (proj2 H)) | exact (proj1 (proj2 (proj2 H))) ].
Defined.

Lemma rebuild_from_no_TypeError w1 : fst (rebuild_from w1) <> Raise TypeError.
Proof.
  intros H. destruct (rebuild_from_spec w1) as (_ & _ & _ & Hr).
  rewrite H in Hr. destruct Hr as (Hf & _).
  destruct (fetch_description w1) as [r w2] eqn:E. simpl in Hf. subst r.
  exact (fetch_description_raises _ _ _ E).
Qed.

Lemma emitted_same w w' : trace w' = trace w -> emitted w w' = [].
Proof. intros H. unfold emitted. rewrite H. apply drop_all. Qed.

(** C3.  After any sequence of operations from the start, the next
    [get_description] enters the description builder if and only if no value
    is cached or more than 10 seconds separate the clock reading of the call
    from the timestamp of the last successful rebuild.  When it does, it
    enters the builder once; when it does not, it returns the cached value
    and records no event at all: no request reaches the gateway, whose
    state is unchanged. *)
Theorem ttl_rebuild_condition (w0 : World) (ops : list Op) :
  initial w0 ->
  let w := run ops w0 in
  let w' := snd (get_description w) in
  (builder_invoked w <->
     CACHED_RESPONSE w = None \/
     exists t, last_rebuild ops w0 None = Some t /\
               (10 < clock w (ticks w) - t)%Q) /\
  (builder_invoked w -> builds (trace w') = S (builds (trace w))) /\
  (~ builder_invoked w ->
     fst (get_description w) = Ret (CACHED_RESPONSE w) /\
     is_Some (CACHED_RESPONSE w) /\
     emitted w w' = [] /\ gw w' = gw w).
Proof.
  intros Hi w w'.
  destruct (initial_spec w0 Hi) as (L0 & S0 & F0).
  destruct (run_spec ops w0 None L0 S0 F0) as (L & Hst & F).
  fold w in L, Hst, F. unfold builder_invoked. fold w'.
  change w' with (exec CallGet w).
  assert (Hre : forall w1, get_description w = rebuild_from w1 ->
            trace w1 = trace w -> CACHED_RESPONSE w1 = CACHED_RESPONSE w ->
            LAST_FETCH w1 = LAST_FETCH w ->
            builds (trace (exec CallGet w)) = S (builds (trace w))).
  { intros w1 Hg Ht Hc Hl.
    by destruct (rebuild_case w w1 Hg Ht Hc Hl) as (_ & Hb & _). }
  destruct (CACHED_RESPONSE w) as [d | ] eqn:C.
  - destruct Hst as [t Ft]; [ by eexists | ]. rewrite Ft in F.
    destruct (elapsed_dec (clock w (ticks w)) t) as [H | H].
    + rewrite (Hre _ (get_description_stale w d t L C Ft H)); try done.
      split_and?; [ | done | lia ].
      split; [ intros _; right; eauto | lia ].
    + destruct (hit_case w d t L C Ft H) as (Hr & _ & Htr & Hg & _).
      rewrite Htr. split_and?; [ | lia | ].
      * split; [ lia | ]. intros [? | (t' & Ht' & Hlt)]; [ done | ].
        exfalso. apply H. congruence.
      * intros _. split_and?; try done. by apply emitted_same.
  - rewrite (Hre _ (get_description_miss w L C)); try done.
    split_and?; [ | done | lia ].
    split; [ by left | lia ].
Qed.

Lemma ttl_rebuild_condition_witness :
  initial (boot (home [living] always_up) seconds) /\
  ~ builder_invoked (run [CallGet] (boot (home [living] always_up) seconds)) /\
  builder_invoked
    (run [CallGet; CallInvalidate] (boot (home [living] always_up) seconds)).
Proof.
  assert (Hi : initial (boot (home [living] always_up) seconds))
    by (repeat split; reflexivity).
  split; [ exact Hi | ]. split.
  - intros Hb.
    apply (proj1 (ttl_rebuild_condition _ [CallGet] Hi)) in Hb.
    destruct Hb as [Hb | (t & Ht & Hlt)].
    + vm_compute in Hb. discriminate.
    + vm_compute in Ht. injection Ht as <-. vm_compute in Hlt. discriminate.
  - apply (proj1 (ttl_rebuild_condition _ [CallGet; CallInvalidate] Hi)).
    left. vm_compute. reflexivity.
Defined.

(** C8 (as amended).  A cached value always comes with a timestamp: this
    holds in the state in which the module is loaded and is preserved by
    every operation, [get_description] with a successful or a failed
    rebuild, [invalidate_description] and the seven dispatcher routes. *)
Theorem stamped_invariant :
  (forall w, initial w -> stamped w) /\
  (forall op w, stamped w -> stamped (exec op w)).
Proof.
  split.
  - intros w Hi. by destruct (initial_spec w Hi) as (_ & S & _).
  - intros op w S.
    assert (op = CallGet \/ op <> CallGet) as [-> | Hop]
      by (destruct op; first [ by left | by right ]).
    + destruct (lock w) eqn:L.
      * unfold exec. by rewrite get_description_blocked.
      * by destruct (exec_get_spec w L S) as (_ & S' & _).
    + destruct (dispatch_rebuilds_nothing op w Hop) as (_ & _ & S'). auto.
Qed.

Lemma stamped_invariant_witness :
  initial (boot (home [living] always_up) seconds) /\
  stamped (exec CallInvalidate
             (exec CallGet (boot (home [living] always_up) seconds))).
Proof.
  assert (Hi : initial (boot (home [living] always_up) seconds))
    by (repeat split; reflexivity).
  split; [ exact Hi | ].
  apply (proj2 stamped_invariant), (proj2 stamped_invariant).
  exact (proj1 stamped_invariant _ Hi).
Defined.

(** C8, as stated, fails: after a successful [get_description] followed by
    [invalidate_description] the value is absent and the timestamp is
    not. *)
Lemma value_iff_stamp_broken :
  initial (boot (home [living] always_up) seconds) /\
  ~ value_iff_stamp
      (run [CallGet; CallInvalidate] (boot (home [living] always_up) seconds)).
Proof.
  split; [ repeat split; reflexivity | ].
  intros [H _].
  assert (C : CACHED_RESPONSE
                (run [CallGet; CallInvalidate]
                     (boot (home [living] always_up) seconds)) = None)
    by (vm_compute; reflexivity).
  apply H in C. vm_compute in C. discriminate.
Qed.

(** C10.  In every state reached from the start, a cached value comes with
    a timestamp.  So when [get_description] runs its staleness test on a
    cached value, the subtraction is evaluated on that timestamp and yields
    a boolean; when no value is cached the test answers without reading
    the clock or the timestamp; and [get_description] never ends in the
    [TypeError] of subtracting [None]. *)
Theorem staleness_test_has_timestamp (w0 : World) (ops : list Op) :
  initial w0 ->
  let w := run ops w0 in
  stamped w /\
  (forall d, CACHED_RESPONSE w = Some d ->
     exists t, LAST_FETCH w = Some t /\
       stale (set_lock true w)
       = (Ret (Qgtb (clock w (ticks w) - t) 10), tick (set_lock true w))) /\
  (CACHED_RESPONSE w = None ->
     stale (set_lock true w) = (Ret true, set_lock true w)) /\
  fst (get_description w) <> Raise TypeError.
Proof.
  intros Hi w.
  destruct (initial_spec w0 Hi) as (L0 & S0 & F0).
  destruct (run_spec ops w0 None L0 S0 F0) as (L & S & _).
  fold w in L, S. split_and?; [ done | | | ].
  - intros d C. destruct S as [t F]; [ by eexists | ]. exists t.
    split; [ done | ].
    unfold stale, bind, gets, time_time, ret, raise. simpl.
    rewrite C; simpl. by rewrite F.
  - intros C. unfold stale, bind, gets, ret. simpl. by rewrite C.
  - destruct (CACHED_RESPONSE w) as [d | ] eqn:C.
    + destruct S as [t F]; [ by eexists | ].
      destruct (elapsed_dec (clock w (ticks w)) t) as [H | H].
      * rewrite (get_description_stale w d t L C F H).
        apply rebuild_from_no_TypeError.
      * by rewrite (get_description_hit w d t L C F H).
    + rewrite (get_description_miss w L C). apply rebuild_from_no_TypeError.
Qed.

Lemma staleness_test_has_timestamp_witness :
  initial (boot (home [living] always_up) seconds) /\
  fst (get_description
         (run [CallGet; RoomOff 10; CallGet]
              (boot (home [living] always_up) seconds)))
  <> Raise TypeError.
Proof.
  assert (Hi : initial (boot (home [living] always_up) seconds))
    by (repeat split; reflexivity).
  split; [ exact Hi | ].
  exact (proj2 (proj2 (proj2
    (staleness_test_has_timestamp _ [CallGet; RoomOff 10; CallGet] Hi)))).
Defined.

(** ** The dispatcher: the room segment *)

(** C9.  The device-level handlers called with two different [room]
    segments, of whatever kind, and the same bulb (and dimmer value), in the
    same world, end in the same outcome and the same world: the same
    requests are on record and the gateway is in the same state. *)
Theorem room_segment_ignored {R1 R2} (room1 : R1) (room2 : R2)
    (bulb value : Z) (w : World) :
  switchOffBulb room1 bulb w = switchOffBulb room2 bulb w /\
  switchOnBulb room1 bulb w = switchOnBulb room2 bulb w /\
  setDimmerBulb room1 bulb value w = setDimmerBulb room2 bulb value w.
Proof. by split_and?. Qed.

(** ** The description builder and unknown members *)

Lemma bind_ret_inv {A B} (m : M A) (k : A -> M B) w b w' :
  bind m k w = (Ret b, w') ->
  exists a w1, m w = (Ret a, w1) /\ k a w1 = (Ret b, w').
Proof.
  unfold bind. destruct (m w) as [[a | e] w1]; [ eauto | discriminate ].
Qed.

Lemma reading_ret {A} c (f : Gateway -> option A) w a w' :
  request c (reading f) w = (Ret a, w') ->
  gw w' = gw w /\ f (gw w) = Some a.
Proof.
  unfold request, reading.
  destruct (gw_fails (gw w) (trace w) c); [ discriminate | ].
  destruct (f (gw w)); intros H; inversion H. done.
Qed.

Lemma mapM_reading_ret {A X} (c : X -> Command)
    (f : X -> Gateway -> option A) xs : forall w ys w',
  mapM (fun x => request (c x) (reading (f x))) xs w = (Ret ys, w') ->
  gw w' = gw w /\ Forall2 (fun x y => f x (gw w) = Some y) xs ys.
Proof.
  induction xs as [ | x xs IH]; simpl; intros w ys w' H.
  - inversion H. by split.
  - apply bind_ret_inv in H as (y & w1 & Hy & H).
    apply bind_ret_inv in H as (ys' & w2 & Hys & H).
    inversion H; subst.
    apply reading_ret in Hy as (Hg1 & Hy).
    apply IH in Hys as (Hg2 & Hys). rewrite Hg1 in Hg2, Hys.
    split; [ done | ]. by constructor.
Qed.

Lemma Forall2_In_l {A B} (R : A -> B -> Prop) xs ys x :
  Forall2 R xs ys -> In x xs -> exists y, In y ys /\ R x y.
Proof.
  induction 1 as [ | x' y' xs ys HR HF IH]; simpl; [ done | ].
  intros [-> | Hin]; [ eauto | ].
  destruct (IH Hin) as (y & Hy & Hxy). eauto.
Qed.

Lemma Forall2_In_r {A B} (R : A -> B -> Prop) xs ys y :
  Forall2 R xs ys -> In y ys -> exists x, In x xs /\ R x y.
Proof.
  induction 1 as [ | x' y' xs ys HR HF IH]; simpl; [ done | ].
  intros [-> | Hin]; [ eauto | ].
  destruct (IH Hin) as (x & Hx & Hxy). eauto.
Qed.

Lemma find_device_id g id d : find_device g id = Some d -> dev_id d = id.
Proof.
  unfold find_device. intros H. apply List.find_some in H as [_ H]. lia.
Qed.

Lemma dict_lookup_None {V} (pairs : list (Z * V)) k :
  (forall kv, In kv pairs -> kv.1 <> k) -> dict pairs !! k = None.
Proof.
  unfold dict. generalize (∅ : gmap Z V) (lookup_empty (M:=gmap Z) (A:=V) k).
  induction pairs as [ | kv pairs IH]; intros m Hm Hk; simpl; [ done | ].
  apply IH.
  - rewrite lookup_insert_ne; [ done | ]. apply Hk. by left.
  - intros kv' Hin. apply Hk. by right.
Qed.

(** The bulb loop stops with [AttributeError] at the first [None] among the
    room's devices: the devices before it are read without incident. *)
Lemma collect_bulbs_None room_devices : forall bulbs w,
  In None room_devices ->
  collect_bulbs room_devices bulbs w = (Raise AttributeError, w).
Proof.
  induction room_devices as [ | device rest IH]; intros bulbs w Hin;
    [ done | ].
  simpl in Hin. destruct device as [d | ]; [ | done ].
  destruct Hin as [Hin | Hin]; [ done | ].
  simpl. unfold bind, attr, first_light, ret, light_control. simpl.
  unfold has_light_control.
  destruct (dev_lights d) as [ | l ls] eqn:E; simpl; by apply IH.
Qed.

Lemma describe_room_unknown_member device_index room id w :
  In id (member_ids room) -> device_index !! id = None ->
  exists e w', describe_room device_index room w = (Raise e, w').
Proof.
  intros Hin Hid. unfold describe_room.
  assert (Hnone : In None (map (fun dev_id => device_index !! dev_id)
                               (member_ids room))).
  { apply in_map_iff. eauto. }
  unfold bind at 1.
  destruct (api_get_mood _ _ w) as [[active | e] w1]; [ | eauto ].
  unfold bind at 1.
  destruct (api_get_moods _ w1) as [[cmds | e] w2]; [ | eauto ].
  unfold bind at 1.
  destruct (mapM _ cmds w2) as [[moods | e] w3]; [ | eauto ].
  unfold bind at 1. rewrite (collect_bulbs_None _ _ _ Hnone). eauto.
Qed.

Lemma mapM_raises_at {A B} (f : A -> M B) x xs :
  In x xs -> (forall w, exists e w', f x w = (Raise e, w')) ->
  forall w, exists e w', mapM f xs w = (Raise e, w').
Proof.
  intros Hin Hx. induction xs as [ | x' xs IH]; [ done | ].
  intros w. simpl. unfold bind at 1.
  destruct Hin as [-> | Hin].
  - destruct (Hx w) as (e & w' & ->). eauto.
  - destruct (f x' w) as [[y | e] w1]; [ | eauto ].
    unfold bind at 1. destruct (IH Hin w1) as (e & w' & ->). eauto.
Qed.

(** C1.  The build does not tolerate an unknown member: the lookup
    [device_index.get(dev_id, None)] yields [None] for it, and the bulb loop
    reads [has_light_control] off that [None].  If the gateway lists a room
    (the one it returns for that room's id) with a member id that no device
    of the gateway carries, [fetch_description] never returns a description:
    it ends in an exception, whatever else the gateway does. *)
Theorem unknown_member_breaks_build (w : World) (room : Group) (id : Z) :
  find_group (gw w) (grp_id room) = Some room ->
  In id (member_ids room) ->
  find_device (gw w) id = None ->
  exists e, fst (fetch_description w) = Raise e.
Proof.
  intros Hroom Hin Hdev.
  destruct (fetch_description w) as [[desc | e] w'] eqn:E; [ | by eexists ].
  exfalso. unfold fetch_description in E.
  apply bind_ret_inv in E as ([] & w1 & H1 & E).
  inversion H1; subst w1; clear H1.
  apply bind_ret_inv in E as ([] & w2 & H2 & E).
  assert (w2 = log EFetch w) as ->.
  { revert H2. unfold get_gateway_and_api, bind, gets, ret, raise. simpl.
    destruct (conf_has_gateway w); intros H; by inversion H. }
  clear H2.
  apply bind_ret_inv in E as (ids & w3 & H3 & E).
  apply reading_ret in H3 as (G3 & H3). simpl in G3, H3.
  apply bind_ret_inv in E as (devices & w4 & H4 & E).
  apply mapM_reading_ret in H4 as (G4 & H4). rewrite G3 in G4, H4.
  apply bind_ret_inv in E as (gids & w5 & H5 & E).
  apply reading_ret in H5 as (G5 & H5). rewrite G4 in G5, H5.
  apply bind_ret_inv in E as (groups & w6 & H6 & E).
  apply mapM_reading_ret in H6 as (G6 & H6). rewrite G5 in G6, H6.
  assert (Hgroups : In room groups).
  { assert (Hg : In (grp_id room) gids).
    { inversion H5; subst gids. apply in_map.
      unfold find_group in Hroom. by apply List.find_some in Hroom as [? _]. }
    destruct (Forall2_In_l _ _ _ _ H6 Hg) as (r & Hr & Hf). congruence. }
  assert (Hidx : dict (map (fun x => (dev_id x, x)) devices) !! id = None).
  { apply dict_lookup_None. intros kv Hkv.
    apply in_map_iff in Hkv as (d & <- & Hd). simpl. intros <-.
    destruct (Forall2_In_r _ _ _ _ H4 Hd) as (i & _ & Hf).
    pose proof (find_device_id _ _ _ Hf). congruence. }
  destruct (mapM_raises_at _ room groups Hgroups
              (fun w => describe_room_unknown_member _ room id w Hin Hidx) w6)
    as (e & w7 & Hraise).
  congruence.
Qed.

Lemma unknown_member_breaks_build_witness :
  find_group (home [living; attic] always_up) 11 = Some attic /\
  In 7 (member_ids attic) /\
  find_device (home [living; attic] always_up) 7 = None /\
  exists e, fst (fetch_description
                   (boot (home [living; attic] always_up) seconds)) = Raise e.
Proof.
  assert (Hr : find_group (home [living; attic] always_up) 11 = Some attic)
    by (vm_compute; reflexivity).
  assert (Hm : In 7 (member_ids attic)) by (simpl; auto).
  assert (Hd : find_device (home [living; attic] always_up) 7 = None)
    by (vm_compute; reflexivity).
  split_and?; [ exact Hr | exact Hm | exact Hd | ].
  exact (unknown_member_breaks_build
           (boot (home [living; attic] always_up) seconds) attic 7 Hr Hm Hd).
Defined.

(** The same build, run: every request is served, the room with the unknown
    member is reached, and the build ends in [AttributeError]; nothing is
    cached. *)
Example attic_build_fails :
  let w' := exec CallGet (boot (home [living; attic] always_up) seconds) in
  fst (fetch_description (boot (home [living; attic] always_up) seconds))
  = Raise AttributeError /\
  fst (get_description (boot (home [living; attic] always_up) seconds))
  = Raise AttributeError /\
  CACHED_RESPONSE w' = None.
Proof. vm_compute. by split_and?. Qed.

(** ** The dispatcher on a gateway that answers *)

Lemma device_op_shape {R} k (room : R) :
  device_op k room = device_level (fanout_command k) (fanout_effect k).
Proof. by destruct k as [[ | ] | value]. Qed.

Lemma room_op_shape k :
  room_op k = room_level (fanout_command k) (fanout_effect k).
Proof. by destruct k as [[ | ] | value]. Qed.

Lemma update_light0_id f d : dev_id (update_light0 f d) = dev_id d.
Proof. unfold update_light0. by destruct (dev_lights d). Qed.

Lemma update_light0_capable f d :
  has_light_control (update_light0 f d) = has_light_control d.
Proof.
  unfold update_light0, has_light_control.
  by destruct (dev_lights d) eqn:E; simpl; rewrite ?E.
Qed.

Lemma find_device_update i f g id :
  find_device (update_device i f g) id
  = (fun d => if dev_id d =? i then update_light0 f d else d)
      <$> find_device g id.
Proof.
  unfold find_device, update_device. simpl.
  induction (gw_devices g) as [ | d ds IH]; simpl; [ done | ].
  replace (dev_id (if dev_id d =? i then update_light0 f d else d))
    with (dev_id d)
    by (destruct (dev_id d =? i); by rewrite ?update_light0_id).
  destruct (dev_id d =? id); [ done | exact IH ].
Qed.

Lemma capability_update i f g id :
  capability (update_device i f g) id = capability g id.
Proof.
  unfold capability. rewrite find_device_update.
  destruct (find_device g id) as [d | ]; simpl; [ | done ].
  destruct (dev_id d =? i); by rewrite ?update_light0_capable.
Qed.

Lemma member_events_ext g g' cmd id :
  capability g' id = capability g id ->
  member_events g' cmd id = member_events g cmd id.
Proof. intros H. unfold member_events, is_light. by rewrite H. Qed.

Lemma healthy_frame P w w' : frame P w w' -> healthy w -> healthy w'.
Proof.
  intros [Hc _ _ _ _ Hf _ _] [H1 H2]. split; [ congruence | ].
  intros tr c. by rewrite Hf.
Qed.

(** A device-level handler on a light, served: the device is fetched, the
    command sent, the cache invalidated. *)
Lemma device_level_served cmd f bulb w d :
  healthy w -> find_device (gw w) bulb = Some d ->
  has_light_control d = true ->
  exists w',
    device_level cmd f bulb w = (Ret EmptyString, w') /\
    trace w' = trace w ++ [EApi (GetDevice bulb); EApi (cmd bulb); EInvalidate] /\
    gw w' = update_device bulb f (gw w) /\
    CACHED_RESPONSE w' = None /\ healthy w'.
Proof.
  intros Hh Hd Hl. pose proof Hh as [Hc Hf].
  pose proof (find_device_id _ _ _ Hd) as Hid.
  pose proof (keeps_device_level not_fetch (fun _ => eq_refl) eq_refl
                cmd f bulb w) as Hfr.
  revert Hfr.
  unfold device_level, get_gateway_and_api, api_get_device, request, reading,
    with_light_control, light_control, writing, invalidate_description,
    emit, modify, bind, gets, ret, raise. simpl.
  repeat (first [ rewrite Hc | rewrite Hf | rewrite Hd | rewrite Hl
                 | rewrite Hid ]; simpl).
  intros Hfr. eexists. split_and?; try reflexivity.
  - simpl. by rewrite <- !app_assoc.
  - by apply (healthy_frame _ _ _ Hfr).
Qed.

(** One iteration of a served fan-out. *)
Lemma member_step_served cmd f id w :
  healthy w -> is_Some (find_device (gw w) id) ->
  exists w',
    member_step (device_level cmd f) id w = (Ret tt, w') /\
    trace w' = trace w ++ member_events (gw w) cmd id /\
    (forall id', capability (gw w') id' = capability (gw w) id') /\
    gw_groups (gw w') = gw_groups (gw w) /\
    healthy w'.
Proof.
  intros Hh [d Hd]. pose proof Hh as [Hc Hf].
  pose proof (find_device_id _ _ _ Hd) as Hid.
  unfold member_step, member_events, is_light, capability.
  unfold bind at 1. unfold api_get_device, request, reading.
  rewrite Hf, Hd. simpl.
  destruct (has_light_control d) eqn:Hl.
  - destruct (device_level_served cmd f (dev_id d)
                (set_gw (gw w) (log (EApi (GetDevice id)) w)) d)
      as (w' & Hrun & Htr & Hgw & _ & Hh'); try done.
    { by rewrite Hid. }
    unfold bind. rewrite Hrun. exists w'. split_and?; try done.
    + rewrite Htr, Hid. simpl. by rewrite <- app_assoc.
    + intros id'. rewrite Hgw. apply capability_update.
    + by rewrite Hgw.
  - eexists. split_and?; try reflexivity. done.
Qed.

Lemma fan_out_cons op id members :
  fan_out (id :: members) op
  = (member_step op id ;;; fan_out members op).
Proof. reflexivity. Qed.

(** A served fan-out over members that all exist. *)
Lemma fan_out_served cmd f members : forall w,
  healthy w -> resolves (gw w) members ->
  exists w',
    fan_out members (device_level cmd f) w = (Ret tt, w') /\
    trace w' = trace w ++ flat_map (member_events (gw w) cmd) members /\
    gw_groups (gw w') = gw_groups (gw w) /\
    healthy w'.
Proof.
  induction members as [ | id members IH]; intros w Hh Hres.
  - exists w. split_and?; try done. simpl. by rewrite app_nil_r.
  - destruct (member_step_served cmd f id w Hh) as (w1 & H1 & T1 & C1 & G1 & Hh1).
    { apply Hres. by left. }
    destruct (IH w1 Hh1) as (w2 & H2 & T2 & G2 & Hh2).
    { intros id' Hin. specialize (Hres id' (or_intror Hin)).
      specialize (C1 id'). unfold capability in C1.
      destruct (find_device (gw w1) id'); [ by eexists | ].
      destruct Hres as [d' Hd']. by rewrite Hd' in C1. }
    exists w2. split_and?; try done.
    + rewrite fan_out_cons. unfold bind. by rewrite H1.
    + rewrite T2, T1. simpl. rewrite <- app_assoc. f_equal. f_equal.
      apply flat_map_ext. intros id'. by apply member_events_ext.
    + congruence.
Qed.

Lemma find_group_id g id r : find_group g id = Some r -> grp_id r = id.
Proof.
  unfold find_group. intros H. apply List.find_some in H as [_ H]. lia.
Qed.

Lemma get_gateway_and_api_ok w :
  conf_has_gateway w = true -> get_gateway_and_api w = (Ret tt, w).
Proof.
  intros H. unfold get_gateway_and_api, bind, gets, ret. simpl. by rewrite H.
Qed.

Lemma reading_served {A} c (f : Gateway -> option A) w a :
  healthy w -> f (gw w) = Some a ->
  request c (reading f) w = (Ret a, set_gw (gw w) (log (EApi c) w)).
Proof.
  intros [_ Hf] Ha. unfold request, reading. by rewrite Hf, Ha.
Qed.

Lemma emitted_app w w' l : trace w' = trace w ++ l -> emitted w w' = l.
Proof. intros H. unfold emitted. rewrite H. apply drop_app_length. Qed.

(** A room-level fan-out, served. *)
Lemma room_level_served cmd f room w grp :
  healthy w -> find_group (gw w) room = Some grp ->
  resolves (gw w) (member_ids grp) ->
  exists w',
    room_level cmd f room w = (Ret EmptyString, w') /\
    emitted w w'
    = EApi (GetGroup room)
      :: flat_map (member_events (gw w) cmd) (member_ids grp)
      ++ [EInvalidate] /\
    CACHED_RESPONSE w' = None.
Proof.
  intros Hh Hg Hres. pose proof Hh as [Hc Hf].
  unfold room_level. unfold bind at 1. rewrite (get_gateway_and_api_ok w Hc).
  unfold bind at 1. unfold api_get_group.
  rewrite (reading_served _ _ w grp Hh Hg).
  destruct (fan_out_served cmd f (member_ids grp)
              (set_gw (gw w) (log (EApi (GetGroup room)) w)))
    as (w2 & H2 & T2 & _ & _); try done.
  unfold bind at 1. rewrite H2.
  unfold bind, invalidate_description, emit, modify, ret. simpl.
  eexists. split_and?; try reflexivity.
  apply emitted_app. simpl. rewrite T2. simpl.
  by rewrite <- !app_assoc.
Qed.

Lemma selectAmbianceRoom_served room ambiance w grp :
  healthy w -> find_group (gw w) room = Some grp ->
  exists w',
    selectAmbianceRoom room ambiance w = (Ret EmptyString, w') /\
    emitted w w'
    = [EApi (GetGroup room); EApi (ActivateMood room ambiance); EInvalidate] /\
    CACHED_RESPONSE w' = None.
Proof.
  intros Hh Hg. pose proof Hh as [Hc Hf].
  pose proof (find_group_id _ _ _ Hg) as Hid.
  unfold selectAmbianceRoom. unfold bind at 1.
  rewrite (get_gateway_and_api_ok w Hc).
  unfold bind at 1. unfold api_get_group.
  rewrite (reading_served _ _ w grp Hh Hg).
  unfold api_activate_mood, request, invalidate_description, emit, modify,
    bind, ret. simpl.
  rewrite Hf, Hid, Hg. simpl.
  eexists. split_and?; try reflexivity.
  apply emitted_app. simpl. by rewrite <- !app_assoc.
Qed.

Lemma invalidations_app a b :
  invalidations (a ++ b) = (invalidations a + invalidations b)%nat.
Proof. unfold invalidations. by rewrite List.filter_app, length_app. Qed.

Lemma invalidations_members g cmd ids :
  (forall id, is_invalidate (EApi (cmd id)) = false) ->
  invalidations (flat_map (member_events g cmd) ids)
  = length (List.filter (is_light g) ids).
Proof.
  intros _. induction ids as [ | id ids IH]; [ done | ]. simpl.
  rewrite invalidations_app, IH. unfold member_events.
  by destruct (is_light g id).
Qed.

Lemma invalidations_fetches ids :
  invalidations (map (fun id => EApi (GetDevice id)) ids) = 0%nat.
Proof. induction ids as [ | i l IH]; [ done | exact IH ]. Qed.

Lemma power_commands_app a b :
  power_commands (a ++ b) = power_commands a ++ power_commands b.
Proof. unfold power_commands. apply flat_map_app. Qed.

Lemma power_commands_members g on ids :
  power_commands (flat_map (member_events g (fun id => SetState id on)) ids)
  = map (fun id => (id, on)) (List.filter (is_light g) ids).
Proof.
  induction ids as [ | id ids IH]; [ done | ]. simpl.
  rewrite power_commands_app, IH. unfold member_events.
  by destruct (is_light g id).
Qed.

Lemma no_light_members_events g cmd ids :
  List.filter (is_light g) ids = [] ->
  flat_map (member_events g cmd) ids = map (fun id => EApi (GetDevice id)) ids.
Proof.
  induction ids as [ | id ids IH]; [ done | ]. simpl. unfold member_events at 1.
  destruct (is_light g id); [ done | ]. intros H. simpl. by rewrite IH.
Qed.

(** The events of a served room-level fan-out. *)
Lemma room_op_served k room w grp :
  healthy w -> find_group (gw w) room = Some grp ->
  resolves (gw w) (member_ids grp) ->
  fst (room_op k room w) = Ret EmptyString /\
  emitted w (snd (room_op k room w)) = fanout_events (gw w) k grp /\
  CACHED_RESPONSE (snd (room_op k room w)) = None.
Proof.
  intros Hh Hg Hres. rewrite room_op_shape.
  destruct (room_level_served (fanout_command k) (fanout_effect k)
              room w grp Hh Hg Hres) as (w' & -> & He & Hc).
  simpl. unfold fanout_events. by rewrite (find_group_id _ _ _ Hg).
Qed.

(** ** The dispatcher: theorems *)

(** C7.  On a gateway that answers, for a room whose members all exist, the
    room-level power operation returns, and the device-level power commands
    it sends are exactly one, with the requested state, for each member with
    light control, in the room's order, and none for any other device.  The
    cache is invalidated.  When no member has light control, the run
    consists of fetching the group and each member, and of one
    invalidation: no device-level command is sent. *)
Theorem room_power_scope (on : bool) (room : Z) (w : World) (grp : Group) :
  healthy w ->
  find_group (gw w) room = Some grp ->
  resolves (gw w) (member_ids grp) ->
  let w' := snd (room_op (Power on) room w) in
  fst (room_op (Power on) room w) = Ret EmptyString /\
  power_commands (emitted w w')
  = map (fun id => (id, on)) (light_members (gw w) grp) /\
  In EInvalidate (emitted w w') /\
  CACHED_RESPONSE w' = None /\
  (light_members (gw w) grp = [] ->
   emitted w w'
   = EApi (GetGroup room)
     :: map (fun id => EApi (GetDevice id)) (member_ids grp)
     ++ [EInvalidate] /\
   invalidations (emitted w w') = 1%nat).
Proof.
  intros Hh Hg Hres w'.
  destruct (room_op_served (Power on) room w grp Hh Hg Hres) as (Hr & He & Hc).
  fold w' in He, Hc. rewrite He. unfold fanout_events, light_members.
  rewrite (find_group_id _ _ _ Hg). split_and?; try done.
  - change (EApi (GetGroup room) :: ?l) with ([EApi (GetGroup room)] ++ l).
    rewrite !power_commands_app. simpl.
    rewrite (power_commands_members (gw w) on). by rewrite app_nil_r.
  - right. apply in_or_app. right. by left.
  - intros Hnone. simpl fanout_command.
    rewrite (no_light_members_events _ _ _ Hnone). split; [ done | ].
    change (EApi (GetGroup room) :: ?l) with ([EApi (GetGroup room)] ++ l).
    rewrite !invalidations_app.
    by rewrite invalidations_fetches.
Qed.

Lemma house_healthy : healthy house.
Proof. split; [ reflexivity | intros tr c; reflexivity ]. Qed.

Lemma house_living : find_group (gw house) 10 = Some living.
Proof. vm_compute. reflexivity. Qed.

Lemma house_hall : find_group (gw house) 12 = Some hall.
Proof. vm_compute. reflexivity. Qed.

Lemma house_resolves_living : resolves (gw house) (member_ids living).
Proof.
  intros id Hin. simpl in Hin.
  destruct Hin as [<- | [<- | [<- | []]]]; vm_compute; by eexists.
Qed.

Lemma house_resolves_hall : resolves (gw house) (member_ids hall).
Proof.
  intros id Hin. simpl in Hin.
  destruct Hin as [<- | []]; vm_compute; by eexists.
Qed.

Lemma room_power_scope_witness :
  healthy house /\
  find_group (gw house) 10 = Some living /\
  resolves (gw house) (member_ids living) /\
  power_commands (emitted house (snd (room_op (Power false) 10 house)))
  = map (fun id => (id, false)) (light_members (gw house) living) /\
  (light_members (gw house) hall = [] ->
   invalidations (emitted house (snd (room_op (Power true) 12 house)))
   = 1%nat).
Proof.
  split; [ exact house_healthy | ].
  split; [ exact house_living | ].
  split; [ exact house_resolves_living | ].
  split.
  - exact (proj1 (proj2 (room_power_scope false 10 house living
             house_healthy house_living house_resolves_living))).
  - intros Hnone.
    exact (proj2 (proj2 (proj2 (proj2 (proj2
             (room_power_scope true 12 house hall
                house_healthy house_hall house_resolves_hall)))) Hnone)).
Defined.

(** C2 (as amended).  On a gateway that answers, for a room whose members
    all exist, a room-level power or dimmer call records exactly the events
    of [fanout_events]: [invalidate_description] is executed once inside
    the device-level handler of each member with light control and once
    more as the last event of the call, after every member has been
    processed; that is one more time than the room has members with light
    control.  A room-level ambiance call executes it exactly once, as its
    last event. *)
Theorem room_invalidation_count (k : Fanout) (room ambiance : Z)
    (w : World) (grp : Group) :
  healthy w ->
  find_group (gw w) room = Some grp ->
  resolves (gw w) (member_ids grp) ->
  emitted w (snd (room_op k room w)) = fanout_events (gw w) k grp /\
  invalidates (room_op k room) w (S (length (light_members (gw w) grp))) /\
  invalidates (selectAmbianceRoom room ambiance) w 1.
Proof.
  intros Hh Hg Hres.
  destruct (room_op_served k room w grp Hh Hg Hres) as (Hr & He & _).
  split; [ done | ]. split.
  - unfold invalidates. rewrite He. split; [ done | ].
    unfold fanout_events, light_members. split.
    + change (EApi (GetGroup (grp_id grp)) :: ?l)
        with ([EApi (GetGroup (grp_id grp))] ++ l).
      rewrite !invalidations_app, invalidations_members; [ | done ].
      change (invalidations [EApi (GetGroup (grp_id grp))]) with 0%nat.
      change (invalidations [EInvalidate]) with 1%nat. lia.
    + rewrite app_comm_cons. apply last_snoc.
  - destruct (selectAmbianceRoom_served room ambiance w grp Hh Hg)
      as (w' & Hrun & He' & _).
    unfold invalidates. rewrite Hrun. simpl. by rewrite He'.
Qed.

Lemma room_invalidation_count_witness :
  healthy house /\
  find_group (gw house) 10 = Some living /\
  resolves (gw house) (member_ids living) /\
  invalidates (room_op (Dimmer 200) 10) house
              (S (length (light_members (gw house) living))) /\
  invalidates (selectAmbianceRoom 10 101) house 1.
Proof.
  split; [ exact house_healthy | ].
  split; [ exact house_living | ].
  split; [ exact house_resolves_living | ].
  exact (proj2 (room_invalidation_count (Dimmer 200) 10 101 house living
           house_healthy house_living house_resolves_living)).
Defined.

(** C2, as stated, fails: switching off the living room, which has two
    members with light control, executes [invalidate_description] three
    times, the first of them before the third member is even fetched. *)
Lemma room_off_invalidates_per_member :
  fst (switchOffRoom 10 house) = Ret EmptyString /\
  emitted house (snd (switchOffRoom 10 house))
  = [EApi (GetGroup 10);
     EApi (GetDevice 1); EApi (GetDevice 1); EApi (SetState 1 false);
     EInvalidate;
     EApi (GetDevice 2);
     EApi (GetDevice 3); EApi (GetDevice 3); EApi (SetState 3 false);
     EInvalidate;
     EInvalidate] /\
  invalidations (emitted house (snd (switchOffRoom 10 house))) <> 1%nat.
Proof.
  split_and?; [ vm_compute; reflexivity | vm_compute; reflexivity | ].
  vm_compute. discriminate.
Qed.

(** ** The dispatcher when a member fails *)

Lemma fan_out_app op xs ys : forall w,
  fan_out (xs ++ ys) op w
  = match fan_out xs op w with
    | (Ret _, w1) => fan_out ys op w1
    | (Raise e, w1) => (Raise e, w1)
    end.
Proof.
  induction xs as [ | x xs IH]; intros w; [ done | ].
  simpl app. rewrite !fan_out_cons. unfold bind.
  destruct (member_step op x w) as [[[] | e] w1]; [ apply IH | done ].
Qed.

(** C6 (as amended).  In a room-level power or dimmer fan-out, when the
    device-level command of a member with light control raises, the
    room-level handler raises the same exception and stops there: the world
    it leaves is the one in which the member's handler raised, so no later
    member is fetched or commanded and the closing invalidation is not
    executed. *)
Theorem fan_out_stops_at_failure (k : Fanout) (room : Z)
    (w w0 w1 w2 w3 : World) (grp : Group) (before after : list Z) (m : Z)
    (d : Device) (e : Exn) :
  conf_has_gateway w = true ->
  api_get_group room w = (Ret grp, w0) ->
  member_ids grp = before ++ m :: after ->
  fan_out before (device_op k room) w0 = (Ret tt, w1) ->
  api_get_device m w1 = (Ret d, w2) ->
  has_light_control d = true ->
  device_op k room (dev_id d) w2 = (Raise e, w3) ->
  room_op k room w = (Raise e, w3).
Proof.
  intros Hc Hg Hm Hb Hd Hl He.
  rewrite room_op_shape. rewrite device_op_shape in Hb, He.
  unfold room_level. unfold bind at 1. rewrite (get_gateway_and_api_ok w Hc).
  unfold bind at 1. rewrite Hg, Hm.
  unfold bind at 1. rewrite fan_out_app, Hb, fan_out_cons.
  unfold bind at 1. unfold member_step. unfold bind at 1. rewrite Hd, Hl.
  unfold bind at 1. by rewrite He.
Qed.

Lemma fan_out_stops_at_failure_witness :
  conf_has_gateway house_stuck = true /\
  has_light_control lamp = true /\
  switchOffRoom 10 house_stuck
  = (Raise RequestError,
     snd (switchOffBulb 10 1
            (snd (api_get_device 1 (snd (api_get_group 10 house_stuck)))))).
Proof.
  assert (Hc : conf_has_gateway house_stuck = true) by reflexivity.
  assert (Hg : api_get_group 10 house_stuck
               = (Ret living, snd (api_get_group 10 house_stuck)))
    by (vm_compute; reflexivity).
  assert (Hm : member_ids living = [] ++ 1 :: [2; 3]) by reflexivity.
  assert (Hb : fan_out [] (device_op (Power false) 10)
                 (snd (api_get_group 10 house_stuck))
               = (Ret tt, snd (api_get_group 10 house_stuck)))
    by reflexivity.
  assert (Hd : api_get_device 1 (snd (api_get_group 10 house_stuck))
               = (Ret lamp,
                  snd (api_get_device 1 (snd (api_get_group 10 house_stuck)))))
    by (vm_compute; reflexivity).
  assert (Hl : has_light_control lamp = true) by reflexivity.
  assert (He : device_op (Power false) 10 (dev_id lamp)
                 (snd (api_get_device 1 (snd (api_get_group 10 house_stuck))))
               = (Raise RequestError,
                  snd (switchOffBulb 10 1
                         (snd (api_get_device 1
                                 (snd (api_get_group 10 house_stuck)))))))
    by (vm_compute; reflexivity).
  split; [ exact Hc | ]. split; [ exact Hl | ].
  exact (fan_out_stops_at_failure (Power false) 10 house_stuck _ _ _ _
           living [] [2; 3] 1 lamp RequestError Hc Hg Hm Hb Hd Hl He).
Defined.

(** C6, as stated, fails: the gateway does not answer the lamp's power-off;
    the spot, a later member of the living room with light control, is then
    neither fetched nor commanded, and the handler raises. *)
Lemma stuck_lamp_aborts_fan_out :
  fst (switchOffRoom 10 house_stuck) = Raise RequestError /\
  emitted house_stuck (snd (switchOffRoom 10 house_stuck))
  = [EApi (GetGroup 10);
     EApi (GetDevice 1); EApi (GetDevice 1); EApi (SetState 1 false)] /\
  member_ids living = [1; 2; 3] /\
  is_light (gw house_stuck) 3 = true /\
  ~ In (EApi (SetState 3 false))
       (emitted house_stuck (snd (switchOffRoom 10 house_stuck))).
Proof.
  assert (He : emitted house_stuck (snd (switchOffRoom 10 house_stuck))
               = [EApi (GetGroup 10); EApi (GetDevice 1); EApi (GetDevice 1);
                  EApi (SetState 1 false)])
    by (vm_compute; reflexivity).
  split_and?; try (vm_compute; reflexivity).
  rewrite He. simpl. intros [H | [H | [H | [H | []]]]]; discriminate.
Qed.


(** * Further properties of the cache *)

Lemma builds_not_fetch l : forallb not_fetch l = true -> builds l = 0%nat.
Proof.
  induction l as [ | e l IH]; [ done | ]. simpl.
  intros H. apply andb_true_iff in H as [He Hl].
  destruct e; try discriminate; exact (IH Hl).
Qed.

Lemma lock_released (w : World) :
  lock w = false -> lock (snd (get_description w)) = false.
Proof.
  intros L. destruct (CACHED_RESPONSE w) as [d | ] eqn:C.
  - destruct (LAST_FETCH w) as [t | ] eqn:F.
    + destruct (elapsed_dec (clock w (ticks w)) t) as [H | H].
      * rewrite (get_description_stale w d t L C F H).
        by destruct (rebuild_from_spec (tick (set_lock true w))) as (_ & ? & _).
      * by rewrite (get_description_hit w d t L C F H).
    + by rewrite (get_description_unstamped w d L C F).
  - rewrite (get_description_miss w L C).
    by destruct (rebuild_from_spec (set_lock true w)) as (_ & ? & _).
Qed.

(** X1.  [get_description] releases the lock on every path: entered with
    the lock free, it leaves the lock free whether it answers from the
    cache, rebuilds, or ends in an exception of the builder or of the
    staleness test. *)
Theorem get_description_releases_lock (w : World) :
  lock w = false -> lock (snd (get_description w)) = false.
Proof. exact (lock_released w). Qed.

Lemma get_description_releases_lock_witness :
  lock house_stuck = false /\ lock (snd (get_description house_stuck)) = false.
Proof.
  assert (L : lock house_stuck = false) by reflexivity.
  split; [ exact L | exact (get_description_releases_lock house_stuck L) ].
Defined.

Lemma returned_is_cached (w : World) (v : option Description) :
  lock w = false ->
  fst (get_description w) = Ret v ->
  is_Some v /\
  CACHED_RESPONSE (snd (get_description w)) = v /\
  is_Some (LAST_FETCH (snd (get_description w))).
Proof.
  intros L.
  assert (Hre : forall w1, get_description w = rebuild_from w1 ->
            fst (get_description w) = Ret v ->
            is_Some v /\ CACHED_RESPONSE (snd (get_description w)) = v /\
            is_Some (LAST_FETCH (snd (get_description w)))).
  { intros w1 Hg Hr. rewrite Hg in Hr |- *.
    destruct (rebuild_from_spec w1) as (_ & _ & _ & Hs).
    rewrite Hr in Hs. destruct Hs as (Hv & Hc & Hl & _).
    split_and?; [ done | done | by eexists ]. }
  destruct (CACHED_RESPONSE w) as [d | ] eqn:C.
  - destruct (LAST_FETCH w) as [t | ] eqn:F.
    + destruct (elapsed_dec (clock w (ticks w)) t) as [H | H].
      * apply (Hre _ (get_description_stale w d t L C F H)).
      * rewrite (get_description_hit w d t L C F H). simpl.
        intros Hr. injection Hr as <-. rewrite C, F.
        split_and?; by eexists.
    + by rewrite (get_description_unstamped w d L C F).
  - apply (Hre _ (get_description_miss w L C)).
Qed.


(** X2.  When [get_description] returns, what it returns is a description,
    never [None]; it is the value the cache holds afterwards, and that value
    is stamped. *)
Theorem get_description_returns_cached (w : World) (v : option Description) :
  lock w = false ->
  fst (get_description w) = Ret v ->
  is_Some v /\
  CACHED_RESPONSE (snd (get_description w)) = v /\
  is_Some (LAST_FETCH (snd (get_description w))).
Proof. exact (returned_is_cached w v). Qed.

Lemma get_description_returns_cached_witness :
  lock cottage = false /\
  fst (get_description cottage) = Ret (CACHED_RESPONSE warm) /\
  is_Some (CACHED_RESPONSE warm).
Proof.
  assert (L : lock cottage = false) by reflexivity.
  assert (Hr : fst (get_description cottage) = Ret (CACHED_RESPONSE warm))
    by (vm_compute; reflexivity).
  split; [ exact L | ]. split; [ exact Hr | ].
  exact (proj1 (get_description_returns_cached cottage _ L Hr)).
Defined.

(** X3.  Two calls in a row.  After a [get_description] that returned [v],
    the cache carries a timestamp [t]; a following call whose clock reading
    is at most 10 seconds past [t] (exactly 10 included, a clock that went
    backwards included) returns the same [v], records no event and leaves
    the gateway alone. *)
Theorem second_call_within_ttl (w : World) (v : option Description) :
  lock w = false ->
  fst (get_description w) = Ret v ->
  let w1 := snd (get_description w) in
  exists t,
    LAST_FETCH w1 = Some t /\
    ((clock w1 (ticks w1) - t <= 10)%Q ->
     fst (get_description w1) = Ret v /\
     emitted w1 (snd (get_description w1)) = [] /\
     gw (snd (get_description w1)) = gw w1).
Proof.
  intros L Hr w1.
  destruct (returned_is_cached w v L Hr) as ([d ->] & Hc & [t Ht]).
  fold w1 in Hc, Ht. exists t. split; [ done | ]. intros Hle.
  assert (L1 : lock w1 = false) by (by apply lock_released).
  assert (Hn : ~ (10 < clock w1 (ticks w1) - t)%Q) by (by apply Qle_not_lt).
  destruct (hit_case w1 d t L1 Hc Ht Hn) as (Hr1 & _ & Htr & Hg & _).
  split_and?; [ done | by apply emitted_same | done ].
Qed.

Lemma second_call_within_ttl_witness :
  lock cottage = false /\
  fst (get_description cottage) = Ret (CACHED_RESPONSE warm) /\
  exists t,
    LAST_FETCH (snd (get_description cottage)) = Some t /\
    ((clock (snd (get_description cottage))
            (ticks (snd (get_description cottage))) - t <= 10)%Q ->
     fst (get_description (snd (get_description cottage)))
     = Ret (CACHED_RESPONSE warm) /\
     emitted (snd (get_description cottage))
             (snd (get_description (snd (get_description cottage)))) = [] /\
     gw (snd (get_description (snd (get_description cottage))))
     = gw (snd (get_description cottage))).
Proof.
  assert (L : lock cottage = false) by reflexivity.
  assert (Hr : fst (get_description cottage) = Ret (CACHED_RESPONSE warm))
    by (vm_compute; reflexivity).
  split; [ exact L | ]. split; [ exact Hr | ].
  exact (second_call_within_ttl cottage _ L Hr).
Defined.

(** X4.  Failures are not cached.  When [get_description], called on an
    empty cache, ends in an exception, the cache is still empty and the lock
    free, so the next call goes to the builder again. *)
Theorem failure_is_not_cached (w : World) (e : Exn) :
  lock w = false ->
  CACHED_RESPONSE w = None ->
  fst (get_description w) = Raise e ->
  CACHED_RESPONSE (exec CallGet w) = None /\
  lock (exec CallGet w) = false /\
  builder_invoked (exec CallGet w).
Proof.
  intros L C Hr.
  destruct (rebuild_case w _ (get_description_miss w L C)
              eq_refl eq_refl eq_refl) as (L1 & _ & Hs).
  rewrite Hr in Hs. destruct Hs as (C1 & _). rewrite C in C1.
  split_and?; try done.
  destruct (rebuild_case (exec CallGet w) _
              (get_description_miss _ L1 C1) eq_refl eq_refl eq_refl)
    as (_ & Hb & _).
  unfold builder_invoked. fold (exec CallGet (exec CallGet w)). lia.
Qed.

Lemma failure_is_not_cached_witness :
  lock cottage_offline = false /\
  CACHED_RESPONSE cottage_offline = None /\
  fst (get_description cottage_offline) = Raise RequestError /\
  builder_invoked (exec CallGet cottage_offline).
Proof.
  assert (L : lock cottage_offline = false) by reflexivity.
  assert (C : CACHED_RESPONSE cottage_offline = None) by reflexivity.
  assert (Hr : fst (get_description cottage_offline) = Raise RequestError)
    by (vm_compute; reflexivity).
  split; [ exact L | ]. split; [ exact C | ]. split; [ exact Hr | ].
  exact (proj2 (proj2 (failure_is_not_cached cottage_offline _ L C Hr))).
Defined.

(** * Further properties of the dispatcher *)

(** X5.  No operation other than [get_description] enters the description
    builder, reads the clock, takes the lock or writes [LAST_FETCH]; such an
    operation leaves [CACHED_RESPONSE] as it was or empty, never with a new
    value. *)
Theorem dispatcher_never_rebuilds (op : Op) (w : World) :
  op <> CallGet ->
  builds (trace (exec op w)) = builds (trace w) /\
  ticks (exec op w) = ticks w /\
  lock (exec op w) = lock w /\
  LAST_FETCH (exec op w) = LAST_FETCH w /\
  (CACHED_RESPONSE (exec op w) = CACHED_RESPONSE w \/
   CACHED_RESPONSE (exec op w) = None).
Proof.
  intros Hop.
  destruct (exec_dispatch_frame op w Hop)
    as [_ _ Ht Hl Hf _ [l [Htr Hl']] Hc].
  split_and?; try done.
  - rewrite Htr, builds_app, (builds_not_fetch l Hl'). lia.
  - destruct Hc as [Hc | [Hc _]]; auto.
Qed.

Lemma dispatcher_never_rebuilds_witness :
  RoomDimmer 10 200 <> CallGet /\
  builds (trace (exec (RoomDimmer 10 200) warm)) = builds (trace warm) /\
  LAST_FETCH (exec (RoomDimmer 10 200) warm) = LAST_FETCH warm.
Proof.
  assert (H : RoomDimmer 10 200 <> CallGet) by discriminate.
  split; [ exact H | ].
  split; [ exact (proj1 (dispatcher_never_rebuilds _ warm H)) | ].
  exact (proj1 (proj2 (proj2 (proj2 (dispatcher_never_rebuilds _ warm H))))).
Defined.

(** X6.  Without an entry for the gateway in [config.json],
    [get_gateway_and_api] reaches the undefined name [GATEWAY_SEC]: the
    builder and each of the seven routes end in [NameError] before any
    request is sent, and the routes leave the world as they found it. *)
Theorem unprovisioned_routes_fail {R} (seg : R) (id value : Z) (w : World) :
  conf_has_gateway w = false ->
  fetch_description w = (Raise NameError, log EFetch w) /\
  switchOffBulb seg id w = (Raise NameError, w) /\
  switchOnBulb seg id w = (Raise NameError, w) /\
  setDimmerBulb seg id value w = (Raise NameError, w) /\
  switchOffRoom id w = (Raise NameError, w) /\
  switchOnRoom id w = (Raise NameError, w) /\
  setDimmerRoom id value w = (Raise NameError, w) /\
  selectAmbianceRoom id value w = (Raise NameError, w).
Proof.
  intros H.
  assert (Hg : forall w', conf_has_gateway w' = false ->
                 get_gateway_and_api w' = (Raise NameError, w')).
  { intros w' H'. unfold get_gateway_and_api, bind, gets, raise. simpl.
    by rewrite H'. }
  split_and?;
    [ unfold fetch_description; rewrite bind_emit; unfold bind at 1;
      by rewrite (Hg (log EFetch w) H)
    | unfold switchOffBulb | unfold switchOnBulb | unfold setDimmerBulb
    | unfold switchOffRoom | unfold switchOnRoom | unfold setDimmerRoom
    | unfold selectAmbianceRoom ];
    unfold bind at 1; by rewrite (Hg w H).
Qed.

Lemma unprovisioned_routes_fail_witness :
  conf_has_gateway cottage_unprovisioned = false /\
  switchOffRoom 10 cottage_unprovisioned
  = (Raise NameError, cottage_unprovisioned).
Proof.
  assert (H : conf_has_gateway cottage_unprovisioned = false) by reflexivity.
  split; [ exact H | ].
  exact (proj1 (proj2 (proj2 (proj2 (proj2
           (unprovisioned_routes_fail EmptyString 10 0
              cottage_unprovisioned H)))))).
Defined.

Ltac emitted_now :=
  first [ apply emitted_same; reflexivity
        | apply emitted_app; simpl; rewrite <- ?app_assoc; reflexivity ].

Ltac emitted_calc :=
  first [ erewrite emitted_same by reflexivity
        | erewrite emitted_app
            by (simpl; rewrite <- ?app_assoc; reflexivity) ];
  simpl; first [ done | lia ].

Lemma device_level_outcome cmd f bulb w :
  match fst (device_level cmd f bulb w) with
  | Ret s =>
      s = EmptyString /\
      emitted w (snd (device_level cmd f bulb w))
      = [EApi (GetDevice bulb); EApi (cmd bulb); EInvalidate] /\
      CACHED_RESPONSE (snd (device_level cmd f bulb w)) = None
  | Raise e =>
      invalidations (emitted w (snd (device_level cmd f bulb w))) = 0%nat /\
      (length (emitted w (snd (device_level cmd f bulb w))) <= 2)%nat /\
      CACHED_RESPONSE (snd (device_level cmd f bulb w)) = CACHED_RESPONSE w
  end.
Proof.
  unfold device_level, get_gateway_and_api, api_get_device, request, reading,
    with_light_control, light_control, writing, invalidate_description,
    emit, modify, bind, gets, ret, raise. simpl.
  destruct (conf_has_gateway w); simpl;
    [ | split_and?; [ | | done ]; emitted_calc ].
  destruct (gw_fails (gw w) (trace w) (GetDevice bulb)); simpl;
    [ split_and?; [ | | done ]; emitted_calc | ].
  destruct (find_device (gw w) bulb) as [d | ] eqn:Hd; simpl;
    [ | split_and?; [ | | done ]; emitted_calc ].
  pose proof (find_device_id _ _ _ Hd) as Hid.
  destruct (has_light_control d); simpl;
    [ | split_and?; [ | | done ]; emitted_calc ].
  rewrite Hid.
  destruct (gw_fails (gw w) (trace w ++ [EApi (GetDevice bulb)]) (cmd bulb));
    simpl.
  { split_and?; [ | | done ]; emitted_calc. }
  rewrite Hd. simpl. split_and?; try done.
  apply emitted_app. simpl. by rewrite <- !app_assoc.
Qed.

(** X7.  What a device-level route does, by outcome.  When it returns, it
    has sent exactly two requests, the fetch of the bulb and then the
    command for that bulb, and has invalidated the cache once, last.  When
    it raises, it has sent at most those two requests, has not invalidated,
    and the cached value is untouched: the cache is cleared only after the
    gateway accepted the command. *)
Theorem device_op_outcome {R} (k : Fanout) (room : R) (bulb : Z) (w : World) :
  match fst (device_op k room bulb w) with
  | Ret s =>
      s = EmptyString /\
      emitted w (snd (device_op k room bulb w))
      = [EApi (GetDevice bulb); EApi (fanout_command k bulb); EInvalidate] /\
      CACHED_RESPONSE (snd (device_op k room bulb w)) = None
  | Raise e =>
      invalidations (emitted w (snd (device_op k room bulb w))) = 0%nat /\
      (length (emitted w (snd (device_op k room bulb w))) <= 2)%nat /\
      CACHED_RESPONSE (snd (device_op k room bulb w)) = CACHED_RESPONSE w
  end.
Proof.
  rewrite device_op_shape. apply device_level_outcome.
Qed.

(** X8.  A device-level route refuses what is not a light.  On a
    provisioned application whose fetch of the bulb is answered: for an
    unknown bulb the route ends in the gateway's refusal; for a device
    without light control it ends in [AttributeError], its [light_control]
    being [None].  Either way the fetch is the only request sent, no
    command reaches the gateway and the cache is not invalidated. *)
Theorem device_op_rejects {R} (k : Fanout) (room : R) (bulb : Z) (w : World) :
  conf_has_gateway w = true ->
  gw_fails (gw w) (trace w) (GetDevice bulb) = false ->
  (find_device (gw w) bulb = None ->
   fst (device_op k room bulb w) = Raise ClientError /\
   emitted w (snd (device_op k room bulb w)) = [EApi (GetDevice bulb)] /\
   CACHED_RESPONSE (snd (device_op k room bulb w)) = CACHED_RESPONSE w) /\
  (forall d, find_device (gw w) bulb = Some d ->
   has_light_control d = false ->
   fst (device_op k room bulb w) = Raise AttributeError /\
   emitted w (snd (device_op k room bulb w)) = [EApi (GetDevice bulb)] /\
   CACHED_RESPONSE (snd (device_op k room bulb w)) = CACHED_RESPONSE w).
Proof.
  intros Hc Hf. rewrite device_op_shape.
  unfold device_level, get_gateway_and_api, api_get_device, request, reading,
    with_light_control, light_control, bind, gets, ret, raise. simpl.
  rewrite Hc; simpl. rewrite Hf; simpl. split.
  - intros ->. simpl. split_and?; try done. emitted_now.
  - intros d -> Hl. simpl. rewrite Hl. simpl. split_and?; try done.
    emitted_now.
Qed.

Lemma device_op_rejects_witness :
  conf_has_gateway house = true /\
  gw_fails (gw house) (trace house) (GetDevice 2) = false /\
  find_device (gw house) 2 = Some remote /\
  has_light_control remote = false /\
  fst (switchOnBulb EmptyString 2 house) = Raise AttributeError /\
  emitted house (snd (switchOnBulb EmptyString 2 house)) = [EApi (GetDevice 2)].
Proof.
  assert (Hc : conf_has_gateway house = true) by reflexivity.
  assert (Hf : gw_fails (gw house) (trace house) (GetDevice 2) = false)
    by reflexivity.
  assert (Hd : find_device (gw house) 2 = Some remote)
    by (vm_compute; reflexivity).
  assert (Hl : has_light_control remote = false) by reflexivity.
  split; [ exact Hc | ]. split; [ exact Hf | ]. split; [ exact Hd | ].
  split; [ exact Hl | ].
  pose proof (proj2 (device_op_rejects (Power true) EmptyString 2 house Hc Hf)
                remote Hd Hl) as H.
  split; [ exact (proj1 H) | exact (proj1 (proj2 H)) ].
Defined.

(** X9.  The room-level ambiance route has no fan-out.  When it returns, it
    has sent exactly two requests, the fetch of the group and the
    activation of the mood on that group, and has invalidated the cache
    once, last; no member of the room is fetched.  When it raises, it has
    not invalidated and the cached value is untouched. *)
Theorem selectAmbianceRoom_outcome (room ambiance : Z) (w : World) :
  match fst (selectAmbianceRoom room ambiance w) with
  | Ret s =>
      s = EmptyString /\
      emitted w (snd (selectAmbianceRoom room ambiance w))
      = [EApi (GetGroup room); EApi (ActivateMood room ambiance);
         EInvalidate] /\
      CACHED_RESPONSE (snd (selectAmbianceRoom room ambiance w)) = None
  | Raise e =>
      invalidations (emitted w (snd (selectAmbianceRoom room ambiance w)))
      = 0%nat /\
      CACHED_RESPONSE (snd (selectAmbianceRoom room ambiance w))
      = CACHED_RESPONSE w
  end.
Proof.
  unfold selectAmbianceRoom, get_gateway_and_api, api_get_group,
    api_activate_mood, request, reading, invalidate_description,
    emit, modify, bind, gets, ret, raise. simpl.
  destruct (conf_has_gateway w); simpl;
    [ | split; [ | done ]; emitted_calc ].
  destruct (gw_fails (gw w) (trace w) (GetGroup room)); simpl;
    [ split; [ | done ]; emitted_calc | ].
  destruct (find_group (gw w) room) as [r | ] eqn:Hr; simpl;
    [ | split; [ | done ]; emitted_calc ].
  rewrite (find_group_id _ _ _ Hr).
  destruct (gw_fails (gw w) (trace w ++ [EApi (GetGroup room)])
              (ActivateMood room ambiance)); simpl.
  { split; [ | done ]. emitted_calc. }
  rewrite Hr. simpl. split_and?; try done.
  apply emitted_app. simpl. by rewrite <- !app_assoc.
Qed.

(** X10.  A room-level route on a room the gateway does not know.  On a
    provisioned application whose fetch of the group is answered with a
    refusal, each fan-out and the ambiance route end in that refusal; the
    fetch is the only request sent, no device is touched and the cache is
    not invalidated. *)
Theorem unknown_room_rejected (k : Fanout) (room ambiance : Z) (w : World) :
  conf_has_gateway w = true ->
  gw_fails (gw w) (trace w) (GetGroup room) = false ->
  find_group (gw w) room = None ->
  (fst (room_op k room w) = Raise ClientError /\
   emitted w (snd (room_op k room w)) = [EApi (GetGroup room)] /\
   CACHED_RESPONSE (snd (room_op k room w)) = CACHED_RESPONSE w) /\
  (fst (selectAmbianceRoom room ambiance w) = Raise ClientError /\
   emitted w (snd (selectAmbianceRoom room ambiance w))
   = [EApi (GetGroup room)] /\
   CACHED_RESPONSE (snd (selectAmbianceRoom room ambiance w))
   = CACHED_RESPONSE w).
Proof.
  intros Hc Hf Hg. rewrite room_op_shape.
  unfold room_level, selectAmbianceRoom, get_gateway_and_api, api_get_group,
    request, reading, bind, gets, ret, raise. simpl.
  rewrite Hc; simpl. rewrite Hf; simpl. rewrite Hg; simpl.
  split; split_and?; try done; emitted_now.
Qed.

Lemma unknown_room_rejected_witness :
  conf_has_gateway house = true /\
  gw_fails (gw house) (trace house) (GetGroup 99) = false /\
  find_group (gw house) 99 = None /\
  fst (switchOffRoom 99 house) = Raise ClientError /\
  emitted house (snd (switchOffRoom 99 house)) = [EApi (GetGroup 99)].
Proof.
  assert (Hc : conf_has_gateway house = true) by reflexivity.
  assert (Hf : gw_fails (gw house) (trace house) (GetGroup 99) = false)
    by reflexivity.
  assert (Hg : find_group (gw house) 99 = None) by (vm_compute; reflexivity).
  split; [ exact Hc | ]. split; [ exact Hf | ]. split; [ exact Hg | ].
  pose proof (proj1 (unknown_room_rejected (Power false) 99 0 house Hc Hf Hg))
    as H.
  split; [ exact (proj1 H) | exact (proj1 (proj2 H)) ].
Defined.

(** * Further properties of the description builder *)

Lemma dict_snoc {V} (pairs : list (Z * V)) k v :
  dict (pairs ++ [(k, v)]) = <[k := v]> (dict pairs).
Proof. unfold dict. by rewrite foldl_app. Qed.

Lemma dict_lookup_last (devices : list Device) (id : Z) :
  dict (map (fun x => (dev_id x, x)) devices) !! id
  = last (List.filter (fun d => dev_id d =? id) devices).
Proof.
  induction devices as [ | d devices IH] using rev_ind; [ done | ].
  rewrite map_app, List.filter_app. simpl map. rewrite dict_snoc. simpl.
  destruct (dev_id d =? id) eqn:E.
  - apply Z.eqb_eq in E. subst id. rewrite lookup_insert_eq.
    by rewrite last_snoc.
  - apply Z.eqb_neq in E. rewrite lookup_insert_ne by done.
    by rewrite app_nil_r.
Qed.

(** X11.  The device index keeps, for each id, the last device fetched with
    that id, and holds nothing for an id that was not fetched: [dict]
    lets later pairs overwrite earlier ones. *)
Theorem device_index_last_wins (devices : list Device) (id : Z) :
  dict (map (fun x => (dev_id x, x)) devices) !! id
  = last (List.filter (fun d => dev_id d =? id) devices).
Proof. exact (dict_lookup_last devices id). Qed.

(** ** The builder only reads *)

Lemma keeps_request_at P {A} c (serve : Gateway -> option (A * Gateway)) :
  P (EApi c) = true ->
  (forall g a g', serve g = Some (a, g') -> gw_fails g' = gw_fails g) ->
  keeps P (request c serve).
Proof.
  intros Hp Hs w.
  assert (Hlog : frame P w (log (EApi c) w)).
  { split; simpl; auto. exists [EApi c]. split; [ done | ]. simpl.
    by rewrite Hp. }
  unfold request.
  destruct (gw_fails (gw w) (trace w) c); simpl; [ done | ].
  destruct (serve (gw w)) as [[a g'] | ] eqn:E; simpl; [ | done ].
  eapply frame_trans; [ exact Hlog | ].
  split; simpl; auto.
  - eapply Hs, E.
  - exists []. split; [ by rewrite app_nil_r | done ].
Qed.

Lemma keeps_read P {A} c (f : Gateway -> option A) :
  P (EApi c) = true -> keeps P (request c (reading f)).
Proof.
  intros Hp. apply keeps_request_at; [ done | ].
  intros g a g' H. apply reading_inv in H as [-> _]. done.
Qed.

Lemma keeps_collect_bulbs_silent P room_devices bulbs :
  keeps P (collect_bulbs room_devices bulbs).
Proof.
  revert bulbs. induction room_devices as [ | device rest IH]; intros bulbs.
  - apply keeps_ret.
  - simpl. unfold first_light, attr.
    repeat first [ apply IH | frame_step ].
Qed.

Lemma fetch_description_reads w :
  frame is_read (log EFetch w) (snd (fetch_description w)).
Proof.
  unfold fetch_description. rewrite bind_emit. to_keeps.
  unfold describe_room, api_get_devices, api_get_device, api_get_groups,
    api_get_group, api_get_moods, api_get_mood.
  repeat first [ apply keeps_read; reflexivity
               | apply keeps_collect_bulbs_silent | frame_step ].
Qed.

Lemma leaves_ret {A} (a : A) : leaves_gateway (ret a).
Proof. by intros w. Qed.

Lemma leaves_raise {A} e : leaves_gateway (@raise A e).
Proof. by intros w. Qed.

Lemma leaves_gets {A} (f : World -> A) : leaves_gateway (gets f).
Proof. by intros w. Qed.

Lemma leaves_emit e : leaves_gateway (emit e).
Proof. by intros w. Qed.

Lemma leaves_bind {A B} (m : M A) (k : A -> M B) :
  leaves_gateway m -> (forall a, leaves_gateway (k a)) ->
  leaves_gateway (bind m k).
Proof.
  intros Hm Hk w. specialize (Hm w). unfold bind.
  destruct (m w) as [[a | e] w1]; simpl in *; [ | done ].
  by rewrite Hk.
Qed.

Lemma leaves_mapM {A B} (f : A -> M B) xs :
  (forall x, leaves_gateway (f x)) -> leaves_gateway (mapM f xs).
Proof.
  intros Hf. induction xs as [ | x xs IH]; simpl.
  - apply leaves_ret.
  - apply leaves_bind; [ apply Hf | ]. intros y.
    apply leaves_bind; [ exact IH | ]. intros ys. apply leaves_ret.
Qed.

Lemma leaves_read {A} c (f : Gateway -> option A) :
  leaves_gateway (request c (reading f)).
Proof.
  intros w. unfold request, reading.
  destruct (gw_fails (gw w) (trace w) c); [ done | ].
  by destruct (f (gw w)).
Qed.

Ltac leaves_step :=
  match goal with
  | |- leaves_gateway (bind _ _) => apply leaves_bind; [ | intros ? ]
  | |- leaves_gateway (ret _) => apply leaves_ret
  | |- leaves_gateway (raise _) => apply leaves_raise
  | |- leaves_gateway (gets _) => apply leaves_gets
  | |- leaves_gateway (emit _) => apply leaves_emit
  | |- leaves_gateway (request _ (reading _)) => apply leaves_read
  | |- leaves_gateway (mapM _ _) => apply leaves_mapM; intros ?
  | |- leaves_gateway (if ?b then _ else _) => destruct b
  | |- leaves_gateway (match ?x with _ => _ end) => destruct x
  end.

Lemma collect_bulbs_leaves room_devices bulbs :
  leaves_gateway (collect_bulbs room_devices bulbs).
Proof.
  revert bulbs. induction room_devices as [ | device rest IH]; intros bulbs.
  - apply leaves_ret.
  - simpl. unfold first_light, attr. repeat first [ apply IH | leaves_step ].
Qed.

Lemma fetch_description_leaves : leaves_gateway fetch_description.
Proof.
  unfold fetch_description, describe_room, get_gateway_and_api,
    api_get_devices, api_get_device, api_get_groups, api_get_group,
    api_get_moods, api_get_mood.
  repeat first [ apply collect_bulbs_leaves | leaves_step ].
Qed.

(** X12.  The description builder only reads.  Whatever its outcome,
    [fetch_description] records its entry and after it nothing but read
    requests (device, group and mood listings and fetches): it sends no
    command, never invalidates, and leaves the gateway, the cached value,
    [LAST_FETCH], the lock and the clock as it found them. *)
Theorem builder_only_reads (w : World) :
  let w' := snd (fetch_description w) in
  (exists l, emitted w w' = EFetch :: l /\ forallb is_read l = true) /\
  gw w' = gw w /\
  CACHED_RESPONSE w' = CACHED_RESPONSE w /\
  LAST_FETCH w' = LAST_FETCH w /\
  lock w' = lock w /\
  ticks w' = ticks w.
Proof.
  intros w'.
  destruct (fetch_description_reads w)
    as [_ _ Ht Hl Hf _ [l [Htr Hr]] [Hc | [_ Hc]]]; [ | discriminate ].
  fold w' in Ht, Hl, Hf, Htr, Hc. split_and?; try done.
  - exists l. split; [ | done ]. apply emitted_app. rewrite Htr. simpl.
    by rewrite <- app_assoc.
  - apply fetch_description_leaves.
Qed.

(** ** Stopping at the first failed request *)

Lemma fail_stop_silent {A} (m : M A) :
  (forall w, snd (m w) = w) -> fail_stop m.
Proof.
  intros H w. exists []. rewrite H. split_and?; [ by rewrite app_nil_r | done | ].
  intros l1 c l2 Hl. by destruct l1.
Qed.

Lemma fail_stop_ret {A} (a : A) : fail_stop (ret a).
Proof. by apply fail_stop_silent. Qed.

Lemma fail_stop_raise {A} e : fail_stop (@raise A e).
Proof. by apply fail_stop_silent. Qed.

Lemma fail_stop_get_gateway_and_api : fail_stop get_gateway_and_api.
Proof.
  apply fail_stop_silent. intros w.
  unfold get_gateway_and_api, bind, gets, ret, raise. simpl.
  by destruct (conf_has_gateway w).
Qed.

Lemma collect_bulbs_silent room_devices : forall bulbs w,
  snd (collect_bulbs room_devices bulbs w) = w.
Proof.
  induction room_devices as [ | device rest IH]; intros bulbs w; [ done | ].
  simpl. unfold bind, attr, first_light, ret, raise, light_control.
  destruct device as [d | ]; simpl; [ | done ].
  unfold has_light_control.
  destruct (dev_lights d) as [ | l ls]; simpl; apply IH.
Qed.

Lemma fail_stop_emit e : is_api e = false -> fail_stop (emit e).
Proof.
  intros He w. exists [e]. split_and?; [ done | done | ].
  intros l1 c l2 Hl. destruct l1 as [ | x l1].
  - injection Hl as -> _. discriminate.
  - injection Hl as _ Hl. by destruct l1.
Qed.

Lemma fail_stop_invalidate_description : fail_stop invalidate_description.
Proof.
  intros w. exists [EInvalidate]. split_and?; [ done | done | ].
  intros l1 c l2 Hl. destruct l1 as [ | x l1].
  - discriminate.
  - injection Hl as _ Hl. by destruct l1.
Qed.

Lemma fail_stop_request {A} c (serve : Gateway -> option (A * Gateway)) :
  (forall g a g', serve g = Some (a, g') -> gw_fails g' = gw_fails g) ->
  fail_stop (request c serve).
Proof.
  intros Hs w. exists [EApi c]. unfold request.
  destruct (gw_fails (gw w) (trace w) c) eqn:Hf; simpl.
  - split_and?; [ done | done | ]. intros l1 c' l2 Hl _.
    destruct l1 as [ | x l1].
    + by injection Hl as _ <-.
    + injection Hl as _ Hl. by destruct l1.
  - assert (Hno : forall l1 c' l2, [EApi c] = l1 ++ EApi c' :: l2 ->
                    gw_fails (gw w) (trace w ++ l1) c' = true -> False).
    { intros l1 c' l2 Hl. destruct l1 as [ | x l1].
      - injection Hl as <- _. rewrite app_nil_r. congruence.
      - injection Hl as _ Hl. by destruct l1. }
    destruct (serve (gw w)) as [[a g'] | ] eqn:E; simpl.
    + split_and?; [ done | eapply Hs, E | ].
      intros l1 c' l2 Hl Ht. destruct (Hno _ _ _ Hl Ht).
    + split_and?; [ done | done | ].
      intros l1 c' l2 Hl Ht. destruct (Hno _ _ _ Hl Ht).
Qed.

Lemma fail_stop_bind {A B} (m : M A) (k : A -> M B) :
  fail_stop m -> (forall a, fail_stop (k a)) -> fail_stop (bind m k).
Proof.
  intros Hm Hk w. generalize (Hm w). unfold bind.
  destruct (m w) as [[a | e] w1]; simpl; intros (la & Ta & Fa & Sa).
  2:{ exists la. split_and?; [ done | done | ].
      intros l1 c l2 Hl Hf. destruct (Sa l1 c l2 Hl Hf) as [-> He].
      by injection He as ->. }
  destruct (Hk a w1) as (lb & Tb & Fb & Sb).
  exists (la ++ lb). split_and?.
  - by rewrite Tb, Ta, app_assoc.
  - congruence.
  - intros l1 c l2 Hl Hf.
    apply app_eq_app in Hl as [l' [[Hl1 Hl2] | [Hl1 Hl2]]].
    + destruct l' as [ | x l'].
      * rewrite app_nil_r in Hl1. subst la. simpl in Hl2.
        apply (Sb [] c l2); [ done | ].
        by rewrite Fa, Ta, app_nil_r.
      * injection Hl2 as Hx Hl2. subst x la.
        destruct (Sa l1 c l' eq_refl Hf) as [_ ?]. discriminate.
    + subst l1. apply (Sb l' c l2 Hl2).
      by rewrite Fa, Ta, <- app_assoc.
Qed.

Lemma fail_stop_mapM {A B} (f : A -> M B) xs :
  (forall x, fail_stop (f x)) -> fail_stop (mapM f xs).
Proof.
  intros Hf. induction xs as [ | x xs IH]; simpl.
  - apply fail_stop_ret.
  - apply fail_stop_bind; [ apply Hf | ]. intros y.
    apply fail_stop_bind; [ exact IH | ]. intros ys. apply fail_stop_ret.
Qed.

Lemma fail_stop_for_each {A} xs (body : A -> M unit) :
  (forall x, fail_stop (body x)) -> fail_stop (for_each xs body).
Proof.
  intros Hb. induction xs as [ | x xs IH]; simpl.
  - apply fail_stop_ret.
  - apply fail_stop_bind; [ apply Hb | ]. intros _. exact IH.
Qed.

Lemma fail_stop_read {A} c (f : Gateway -> option A) :
  fail_stop (request c (reading f)).
Proof.
  apply fail_stop_request. intros g a g' H.
  apply reading_inv in H as [-> _]. done.
Qed.

Lemma fail_stop_write c id f : fail_stop (request c (writing id f)).
Proof.
  apply fail_stop_request. intros g a g' H.
  apply writing_inv in H as [-> _]. done.
Qed.

Ltac fail_stop_step :=
  match goal with
  | |- fail_stop (bind _ _) => apply fail_stop_bind; [ | intros ? ]
  | |- fail_stop (ret _) => apply fail_stop_ret
  | |- fail_stop (raise _) => apply fail_stop_raise
  | |- fail_stop get_gateway_and_api => apply fail_stop_get_gateway_and_api
  | |- fail_stop invalidate_description =>
      apply fail_stop_invalidate_description
  | |- fail_stop (emit _) => apply fail_stop_emit; reflexivity
  | |- fail_stop (request _ (reading _)) => apply fail_stop_read
  | |- fail_stop (request _ (writing _ _)) => apply fail_stop_write
  | |- fail_stop (collect_bulbs _ _) =>
      apply fail_stop_silent; intros ?; apply collect_bulbs_silent
  | |- fail_stop (mapM _ _) => apply fail_stop_mapM; intros ?
  | |- fail_stop (for_each _ _) => apply fail_stop_for_each; intros ?
  | |- fail_stop (if ?b then _ else _) => destruct b
  | |- fail_stop (match ?x with _ => _ end) => destruct x
  end.

Lemma fetch_description_fail_stop : fail_stop fetch_description.
Proof.
  unfold fetch_description, describe_room, api_get_devices, api_get_device,
    api_get_groups, api_get_group, api_get_moods, api_get_mood.
  repeat fail_stop_step.
Qed.

Lemma device_level_fail_stop cmd f bulb : fail_stop (device_level cmd f bulb).
Proof.
  unfold device_level, api_get_device, with_light_control.
  repeat fail_stop_step.
Qed.

Lemma room_level_fail_stop cmd f room : fail_stop (room_level cmd f room).
Proof.
  unfold room_level, fan_out, api_get_group, api_get_device.
  repeat first [ apply device_level_fail_stop | fail_stop_step ].
Qed.

Lemma api_activate_mood_fail_stop group mood :
  fail_stop (api_activate_mood group mood).
Proof.
  apply fail_stop_request. intros g a g' H.
  destruct (find_group g group); inversion H. done.
Qed.

Lemma selectAmbianceRoom_fail_stop room ambiance :
  fail_stop (selectAmbianceRoom room ambiance).
Proof.
  unfold selectAmbianceRoom, api_get_group.
  repeat first [ apply api_activate_mood_fail_stop | fail_stop_step ].
Qed.

Lemma fail_stop_emitted {A} (m : M A) w l1 c l2 :
  fail_stop m ->
  emitted w (snd (m w)) = l1 ++ EApi c :: l2 ->
  gw_fails (gw w) (trace w ++ l1) c = true ->
  l2 = [] /\ fst (m w) = Raise RequestError.
Proof.
  intros Hm He Hf. destruct (Hm w) as (l & Tl & _ & Sl).
  rewrite (emitted_app _ _ _ Tl) in He. by apply (Sl l1 c l2).
Qed.

(** X13.  The builder stops at the first failed request.  Whichever of
    its requests the gateway fails (the device listing, a device, the group
    listing, a group, a room's active mood, its mood listing or one of its
    moods), that request is the last thing the build does, and the build
    ends in the [RequestError]: nothing is retried, nothing is skipped, no
    partial description is returned. *)
Theorem builder_fail_stop (w : World) (l1 l2 : list Event) (c : Command) :
  emitted w (snd (fetch_description w)) = l1 ++ EApi c :: l2 ->
  gw_fails (gw w) (trace w ++ l1) c = true ->
  l2 = [] /\ fst (fetch_description w) = Raise RequestError.
Proof. apply fail_stop_emitted, fetch_description_fail_stop. Qed.

Lemma builder_fail_stop_witness :
  emitted cottage_groups_down (snd (fetch_description cottage_groups_down))
  = [EFetch; EApi GetDevices; EApi (GetDevice 1); EApi (GetDevice 2);
     EApi (GetDevice 3)] ++ EApi GetGroups :: [] /\
  fst (fetch_description cottage_groups_down) = Raise RequestError.
Proof.
  assert (He : emitted cottage_groups_down
                 (snd (fetch_description cottage_groups_down))
               = [EFetch; EApi GetDevices; EApi (GetDevice 1);
                  EApi (GetDevice 2); EApi (GetDevice 3)]
                 ++ EApi GetGroups :: [])
    by (vm_compute; reflexivity).
  split; [ exact He | ].
  exact (proj2 (builder_fail_stop cottage_groups_down _ _ _ He eq_refl)).
Defined.

(** X14.  The dispatcher stops at the first failed request.  In a
    room-level fan-out, in a device-level route and in the ambiance route,
    a request the gateway fails (the fetch of the group, the fetch of a
    member, a member's command, the activation of the mood) is the last
    event of the call, which ends in the [RequestError]: no later member is
    touched and the closing invalidation does not run. *)
Theorem dispatcher_fail_stop {R} (k : Fanout) (seg : R) (id ambiance : Z)
    (w : World) (l1 l2 : list Event) (c : Command) :
  gw_fails (gw w) (trace w ++ l1) c = true ->
  (emitted w (snd (room_op k id w)) = l1 ++ EApi c :: l2 ->
   l2 = [] /\ fst (room_op k id w) = Raise RequestError) /\
  (emitted w (snd (device_op k seg id w)) = l1 ++ EApi c :: l2 ->
   l2 = [] /\ fst (device_op k seg id w) = Raise RequestError) /\
  (emitted w (snd (selectAmbianceRoom id ambiance w)) = l1 ++ EApi c :: l2 ->
   l2 = [] /\ fst (selectAmbianceRoom id ambiance w) = Raise RequestError).
Proof.
  intros Hf. split_and?; intros He.
  - revert He. rewrite room_op_shape. intros He.
    by apply (fail_stop_emitted _ w l1 c l2 (room_level_fail_stop _ _ id)).
  - revert He. rewrite device_op_shape. intros He.
    by apply (fail_stop_emitted _ w l1 c l2 (device_level_fail_stop _ _ id)).
  - by apply (fail_stop_emitted _ w l1 c l2
                (selectAmbianceRoom_fail_stop id ambiance)).
Qed.

Lemma dispatcher_fail_stop_witness :
  gw_fails (gw house_stuck)
    (trace house_stuck
     ++ [EApi (GetGroup 10); EApi (GetDevice 1); EApi (GetDevice 1)])
    (SetState 1 false) = true /\
  emitted house_stuck (snd (switchOffRoom 10 house_stuck))
  = [EApi (GetGroup 10); EApi (GetDevice 1); EApi (GetDevice 1)]
    ++ EApi (SetState 1 false) :: [] /\
  fst (switchOffRoom 10 house_stuck) = Raise RequestError.
Proof.
  assert (Hf : gw_fails (gw house_stuck)
                 (trace house_stuck
                  ++ [EApi (GetGroup 10); EApi (GetDevice 1);
                      EApi (GetDevice 1)])
                 (SetState 1 false) = true) by reflexivity.
  assert (He : emitted house_stuck (snd (switchOffRoom 10 house_stuck))
               = [EApi (GetGroup 10); EApi (GetDevice 1); EApi (GetDevice 1)]
                 ++ EApi (SetState 1 false) :: [])
    by (vm_compute; reflexivity).
  split; [ exact Hf | ]. split; [ exact He | ].
  exact (proj2 (proj1 (dispatcher_fail_stop (Power false) EmptyString 10 0
                         house_stuck _ _ _ Hf) He)).
Defined.

(** ** What a served build returns *)

Lemma find_unique {A} (key : A -> Z) (l : list A) (x : A) :
  NoDup (map key l) -> In x l ->
  List.find (fun y => key y =? key x) l = Some x.
Proof.
  induction l as [ | a l IH]; simpl; [ done | ].
  intros Hnd Hin. apply NoDup_cons in Hnd as [Ha Hnd].
  destruct Hin as [-> | Hin].
  - by rewrite Z.eqb_refl.
  - destruct (key a =? key x) eqn:E; [ | by apply IH ].
    apply Z.eqb_eq in E. exfalso. apply Ha. rewrite E.
    apply list_elem_of_In, in_map, Hin.
Qed.

Lemma find_none_head {A} (key : A -> Z) (l : list A) (id : Z) :
  ~ In id (map key l) -> List.filter (fun y => key y =? id) l = [].
Proof.
  induction l as [ | a l IH]; simpl; [ done | ]. intros Hn.
  destruct (key a =? id) eqn:E.
  - apply Z.eqb_eq in E. exfalso. apply Hn. by left.
  - apply IH. intros H. apply Hn. by right.
Qed.

Lemma last_filter_unique {A} (key : A -> Z) (l : list A) (id : Z) :
  NoDup (map key l) ->
  last (List.filter (fun y => key y =? id) l)
  = List.find (fun y => key y =? id) l.
Proof.
  induction l as [ | a l IH]; simpl; [ done | ].
  intros Hnd. apply NoDup_cons in Hnd as [Ha Hnd].
  destruct (key a =? id) eqn:E; [ | by apply IH ].
  apply Z.eqb_eq in E. rewrite find_none_head; [ done | ].
  rewrite <- E. intros H. apply Ha. by apply list_elem_of_In.
Qed.

Lemma device_index_find g id :
  NoDup (map dev_id (gw_devices g)) ->
  dict (map (fun x => (dev_id x, x)) (gw_devices g)) !! id = find_device g id.
Proof.
  intros Hnd. rewrite dict_lookup_last. by apply last_filter_unique.
Qed.

Lemma healthy_same w w' :
  gw w' = gw w -> conf_has_gateway w' = conf_has_gateway w ->
  healthy w -> healthy w'.
Proof. intros Hg Hc [H1 H2]. split; [ congruence | by rewrite Hg ]. Qed.

(** A list of read requests, all answered. *)
Lemma mapM_reading_served {A X} (c : X -> Command)
    (f : X -> Gateway -> option A) xs ys : forall w,
  healthy w ->
  Forall2 (fun x y => f x (gw w) = Some y) xs ys ->
  exists w',
    mapM (fun x => request (c x) (reading (f x))) xs w = (Ret ys, w') /\
    gw w' = gw w /\ healthy w' /\
    trace w' = trace w ++ map (fun x => EApi (c x)) xs.
Proof.
  intros w Hh HF. remember (gw w) as g eqn:Hg. revert w Hh Hg.
  induction HF as [ | x y xs ys Hxy HF IH]; intros w Hh Hg.
  - exists w. simpl. split_and?; try done. by rewrite app_nil_r.
  - simpl. unfold bind at 1. rewrite Hg in Hxy.
    rewrite (reading_served _ _ w y Hh Hxy).
    destruct (IH (set_gw (gw w) (log (EApi (c x)) w)))
      as (w' & Hrun & Hg' & Hh' & Ht).
    { by apply (healthy_same w). }
    { done. }
    unfold bind at 1. rewrite Hrun. exists w'. simpl in *.
    split_and?; try done. rewrite Ht. by rewrite <- app_assoc.
Qed.

Lemma Forall2_find_unique {A} (key : A -> Z) (all l : list A) :
  NoDup (map key all) -> (forall x, In x l -> In x all) ->
  Forall2 (fun id y => List.find (fun z => key z =? id) all = Some y)
          (map key l) l.
Proof.
  intros Hnd. induction l as [ | a l IH]; intros Hsub; simpl; constructor.
  - apply (find_unique key all a Hnd). apply Hsub. by left.
  - apply IH. intros x Hx. apply Hsub. by right.
Qed.

Lemma collect_bulbs_all devices : forall bulbs w,
  collect_bulbs (map Some devices) bulbs w
  = (Ret (bulbs ++ flat_map bulb_of devices), w).
Proof.
  induction devices as [ | d devices IH]; intros bulbs w; simpl.
  - by rewrite app_nil_r.
  - unfold bind, attr, first_light, ret, light_control, bulb_of. simpl.
    unfold has_light_control.
    destruct (dev_lights d) as [ | l ls]; simpl; rewrite IH.
    + done.
    + by rewrite <- app_assoc.
Qed.

Lemma resolved_members g ids :
  resolves g ids ->
  map (fun id => find_device g id) ids = map Some (omap (find_device g) ids).
Proof.
  induction ids as [ | id ids IH]; intros Hres; [ done | ]. simpl.
  destruct (Hres id (or_introl eq_refl)) as [d Hd]. rewrite Hd. simpl.
  f_equal. apply IH. intros id' Hin. apply Hres. by right.
Qed.

Lemma find_mood_id g group mood m :
  find_mood g group mood = Some m -> mood_id m = mood.
Proof.
  unfold find_mood. intros H. apply List.find_some in H as [_ H]. lia.
Qed.

(** One room of a served build. *)
Lemma describe_room_served (device_index : gmap Z Device) room w :
  healthy w ->
  (forall id, device_index !! id = find_device (gw w) id) ->
  NoDup (map mood_id (moods_of (gw w) (grp_id room))) ->
  resolves (gw w) (member_ids room) ->
  is_Some (find_mood (gw w) (grp_id room) (grp_mood_id room)) ->
  exists w',
    describe_room device_index room w = (Ret (room_view (gw w) room), w') /\
    gw w' = gw w /\ healthy w' /\
    trace w' = trace w ++ room_requests (gw w) room.
Proof.
  intros Hh Hidx Hnd Hres [active Hact].
  unfold describe_room.
  unfold bind at 1. unfold api_get_mood at 1.
  rewrite (reading_served _ _ w active Hh Hact).
  set (w1 := set_gw (gw w) (log _ w)).
  assert (Hh1 : healthy w1) by (by apply (healthy_same w)).
  unfold bind at 1. unfold api_get_moods.
  rewrite (reading_served _ _ w1 (map mood_id (moods_of (gw w) (grp_id room)))
             Hh1 eq_refl).
  set (w2 := set_gw (gw w1) (log _ w1)).
  assert (Hh2 : healthy w2) by (by apply (healthy_same w1)).
  destruct (mapM_reading_served (GetMood (grp_id room))
              (fun mood g => find_mood g (grp_id room) mood)
              (map mood_id (moods_of (gw w) (grp_id room)))
              (moods_of (gw w) (grp_id room)) w2 Hh2)
    as (w3 & Hrun & Hg3 & Hh3 & Ht3).
  { apply (Forall2_find_unique mood_id); [ done | auto ]. }
  unfold bind at 1.
  change (mapM (api_get_mood (grp_id room)))
    with (mapM (fun x => request (GetMood (grp_id room) x)
                           (reading (fun g => find_mood g (grp_id room) x)))).
  rewrite Hrun.
  unfold bind at 1.
  replace (map (fun dev_id => device_index !! dev_id) (member_ids room))
    with (map Some (member_devices (gw w) room)).
  2:{ unfold member_devices. rewrite <- (resolved_members _ _ Hres).
      apply map_ext. intros id. by rewrite Hidx. }
  rewrite collect_bulbs_all. unfold ret. simpl.
  exists w3. split_and?; try done.
  - unfold room_view. by rewrite (find_mood_id _ _ _ _ Hact).
  - rewrite Ht3. unfold room_requests. simpl. rewrite <- !app_assoc. simpl.
    f_equal. f_equal. f_equal. by rewrite map_map.
Qed.

(** The rooms of a served build. *)
Lemma describe_rooms_served (device_index : gmap Z Device) rooms : forall w,
  healthy w ->
  (forall id, device_index !! id = find_device (gw w) id) ->
  (forall room, In room rooms ->
     NoDup (map mood_id (moods_of (gw w) (grp_id room))) /\
     resolves (gw w) (member_ids room) /\
     is_Some (find_mood (gw w) (grp_id room) (grp_mood_id room))) ->
  exists w',
    mapM (describe_room device_index) rooms w
    = (Ret (map (room_view (gw w)) rooms), w') /\
    trace w' = trace w ++ flat_map (room_requests (gw w)) rooms.
Proof.
  induction rooms as [ | room rooms IH]; intros w Hh Hidx Hall.
  - exists w. simpl. split; [ done | by rewrite app_nil_r ].
  - destruct (Hall room (or_introl eq_refl)) as (Hnd & Hres & Hact).
    destruct (describe_room_served device_index room w Hh Hidx Hnd Hres Hact)
      as (w1 & Hrun1 & Hg1 & Hh1 & Ht1).
    destruct (IH w1 Hh1) as (w2 & Hrun2 & Ht2).
    { intros id. by rewrite Hg1. }
    { intros r Hr. rewrite Hg1. apply Hall. by right. }
    exists w2. simpl. unfold bind at 1. rewrite Hrun1.
    unfold bind at 1. rewrite Hrun2. unfold ret. rewrite Hg1 in *.
    split; [ done | ]. rewrite Ht2, Ht1. by rewrite <- app_assoc.
Qed.

(** The whole of a served build. *)
Lemma fetch_description_served w :
  healthy w -> unique_ids (gw w) -> complete (gw w) ->
  exists w',
    fetch_description w = (Ret (describe (gw w)), w') /\
    trace w' = trace w ++ build_requests (gw w).
Proof.
  intros Hh [Ud Ug Um] [Cm Ca]. pose proof Hh as [Hc _].
  unfold fetch_description. rewrite bind_emit.
  set (w0 := log EFetch w).
  assert (Hh0 : healthy w0) by (by apply (healthy_same w)).
  unfold bind at 1. rewrite (get_gateway_and_api_ok w0 Hc).
  unfold bind at 1. unfold api_get_devices.
  rewrite (reading_served _ _ w0 (map dev_id (gw_devices (gw w))) Hh0 eq_refl).
  set (w1 := set_gw (gw w0) (log _ w0)).
  assert (Hh1 : healthy w1) by (by apply (healthy_same w0)).
  destruct (mapM_reading_served GetDevice (fun id g => find_device g id)
              (map dev_id (gw_devices (gw w))) (gw_devices (gw w)) w1 Hh1)
    as (w2 & Hrun2 & Hg2 & Hh2 & Ht2).
  { by apply (Forall2_find_unique dev_id). }
  unfold bind at 1.
  change (mapM api_get_device)
    with (mapM (fun x => request (GetDevice x)
                           (reading (fun g => find_device g x)))).
  rewrite Hrun2.
  unfold bind at 1. unfold api_get_groups.
  rewrite (reading_served _ _ w2 (map grp_id (gw_groups (gw w))) Hh2);
    [ | by rewrite Hg2 ].
  set (w3 := set_gw (gw w2) (log _ w2)).
  assert (Hh3 : healthy w3) by (by apply (healthy_same w2)).
  assert (Hg3 : gw w3 = gw w) by exact Hg2.
  destruct (mapM_reading_served GetGroup (fun id g => find_group g id)
              (map grp_id (gw_groups (gw w))) (gw_groups (gw w)) w3 Hh3)
    as (w4 & Hrun4 & Hg4 & Hh4 & Ht4).
  { rewrite Hg3. by apply (Forall2_find_unique grp_id). }
  unfold bind at 1.
  change (mapM api_get_group)
    with (mapM (fun x => request (GetGroup x)
                           (reading (fun g => find_group g x)))).
  rewrite Hrun4.
  rewrite Hg3 in Hg4.
  destruct (describe_rooms_served
              (dict (map (fun x => (dev_id x, x)) (gw_devices (gw w))))
              (gw_groups (gw w)) w4 Hh4) as (w5 & Hrun5 & Ht5).
  { intros id. rewrite Hg4. by apply device_index_find. }
  { intros room Hin. rewrite Hg4. split_and?; auto. }
  rewrite Hg4 in Hrun5, Ht5. exists w5. split; [ exact Hrun5 | ].
  rewrite Ht5, Ht4. unfold w3. simpl. rewrite Ht2. unfold w1, w0. simpl.
  unfold build_requests. rewrite !map_map, <- !app_assoc. simpl.
  by rewrite <- ?app_assoc.
Qed.

(** X15.  What a served build returns.  On a gateway that answers, whose
    ids identify and whose groups refer to existing devices and moods,
    [fetch_description] returns [describe]: one room view per group in the
    order of the gateway's listing, carrying the group's name, id and
    active mood id, the room's moods in the gateway's order, and as bulbs
    the members with light control, in the order of the member ids, each
    with the dimmer and state of its first light.  The build sends exactly
    the requests of [build_requests]: two listings, one fetch per device
    and per group, and per room the active mood, the mood listing and one
    fetch per mood. *)
Theorem builder_describes (w : World) :
  healthy w -> unique_ids (gw w) -> complete (gw w) ->
  fst (fetch_description w) = Ret (describe (gw w)) /\
  emitted w (snd (fetch_description w)) = build_requests (gw w).
Proof.
  intros Hh Hu Hc.
  destruct (fetch_description_served w Hh Hu Hc) as (w' & -> & Ht).
  split; [ done | by apply emitted_app ].
Qed.

Lemma cottage_healthy : healthy cottage.
Proof. split; [ reflexivity | intros tr c; reflexivity ]. Qed.

Lemma cottage_unique_ids : unique_ids (gw cottage).
Proof.
  split.
  - change (NoDup [1; 2; 3]).
    repeat (apply NoDup_cons_2;
            [ rewrite ?elem_of_cons, elem_of_nil; lia | ]).
    apply NoDup_nil_2.
  - change (NoDup [10]).
    repeat (apply NoDup_cons_2;
            [ rewrite ?elem_of_cons, elem_of_nil; lia | ]).
    apply NoDup_nil_2.
  - intros room [<- | []]. change (NoDup [100; 101]).
    repeat (apply NoDup_cons_2;
            [ rewrite ?elem_of_cons, elem_of_nil; lia | ]).
    apply NoDup_nil_2.
Qed.

Lemma cottage_complete : complete (gw cottage).
Proof.
  split.
  - intros room [<- | []] id Hin. simpl in Hin.
    destruct Hin as [<- | [<- | [<- | []]]]; vm_compute; by eexists.
  - intros room [<- | []]. vm_compute. by eexists.
Qed.

Lemma builder_describes_witness :
  healthy cottage /\ unique_ids (gw cottage) /\ complete (gw cottage) /\
  fst (fetch_description cottage) = Ret (describe (gw cottage)) /\
  emitted cottage (snd (fetch_description cottage))
  = build_requests (gw cottage).
Proof.
  split; [ exact cottage_healthy | ].
  split; [ exact cottage_unique_ids | ].
  split; [ exact cottage_complete | ].
  exact (builder_describes cottage cottage_healthy cottage_unique_ids
           cottage_complete).
Defined.

(** X16.  A first read, served.  Called on an empty cache with the lock
    free, on such a gateway, [get_description] returns [describe], caches
    it, and stamps it with the clock reading taken after the build, which
    is the first reading the call takes; the lock is free again. *)
Theorem first_read_served (w : World) :
  lock w = false -> CACHED_RESPONSE w = None ->
  healthy w -> unique_ids (gw w) -> complete (gw w) ->
  fst (get_description w) = Ret (Some (describe (gw w))) /\
  CACHED_RESPONSE (snd (get_description w)) = Some (describe (gw w)) /\
  LAST_FETCH (snd (get_description w)) = Some (clock w (ticks w)) /\
  ticks (snd (get_description w)) = S (ticks w) /\
  lock (snd (get_description w)) = false /\
  emitted w (snd (get_description w)) = build_requests (gw w).
Proof.
  intros L C Hh Hu Hc. rewrite (get_description_miss w L C).
  destruct (fetch_description_served (set_lock true w)) as (w' & Hrun & Ht);
    try done.
  pose proof (fetch_description_frame (set_lock true w)) as Hfr.
  rewrite Hrun in Hfr. simpl in Hfr.
  destruct Hfr as [_ Hclk Htk _ _ _ _ _]. simpl in Hclk, Htk.
  unfold rebuild_from. rewrite Hrun. simpl. rewrite Hclk, Htk.
  split_and?; try done. by apply emitted_app.
Qed.

Lemma first_read_served_witness :
  lock cottage = false /\ CACHED_RESPONSE cottage = None /\
  healthy cottage /\ unique_ids (gw cottage) /\ complete (gw cottage) /\
  fst (get_description cottage) = Ret (Some (describe (gw cottage))) /\
  LAST_FETCH (snd (get_description cottage)) = Some (clock cottage 0%nat).
Proof.
  assert (L : lock cottage = false) by reflexivity.
  assert (C : CACHED_RESPONSE cottage = None) by reflexivity.
  split; [ exact L | ]. split; [ exact C | ].
  split; [ exact cottage_healthy | ].
  split; [ exact cottage_unique_ids | ].
  split; [ exact cottage_complete | ].
  pose proof (first_read_served cottage L C cottage_healthy
                cottage_unique_ids cottage_complete) as H.
  split; [ exact (proj1 H) | exact (proj1 (proj2 (proj2 H))) ].
Defined.

(** * Mutation, then read *)

Lemma empty_cache_rebuilds w :
  lock w = false -> CACHED_RESPONSE w = None -> builder_invoked w.
Proof.
  intros L C.
  destruct (rebuild_case w _ (get_description_miss w L C)
              eq_refl eq_refl eq_refl) as (_ & Hb & _).
  unfold builder_invoked. fold (exec CallGet w). lia.
Qed.

Lemma room_level_returns cmd f room w s :
  fst (room_level cmd f room w) = Ret s ->
  CACHED_RESPONSE (snd (room_level cmd f room w)) = None.
Proof.
  destruct (room_level cmd f room w) as [r w'] eqn:E. simpl. intros ->.
  unfold room_level in E.
  apply bind_ret_inv in E as ([] & w1 & _ & E).
  apply bind_ret_inv in E as (g & w2 & _ & E).
  apply bind_ret_inv in E as ([] & w3 & _ & E).
  apply bind_ret_inv in E as ([] & w4 & Hi & E).
  inversion E; subst. by inversion Hi.
Qed.

(** X17.  A mutation that returns is seen by the next read.  Whenever a
    device-level route, a room-level fan-out or the ambiance route returns,
    the cache is empty and the lock as free as before, so the next
    [get_description] enters the description builder, however recent the
    last rebuild. *)
Theorem mutation_forces_rebuild {R} (k : Fanout) (seg : R)
    (id ambiance : Z) (w : World) :
  lock w = false ->
  (forall s, fst (device_op k seg id w) = Ret s ->
             builder_invoked (snd (device_op k seg id w))) /\
  (forall s, fst (room_op k id w) = Ret s ->
             builder_invoked (snd (room_op k id w))) /\
  (forall s, fst (selectAmbianceRoom id ambiance w) = Ret s ->
             builder_invoked (snd (selectAmbianceRoom id ambiance w))).
Proof.
  intros L. split_and?; intros s Hr; apply empty_cache_rebuilds.
  - rewrite device_op_shape.
    destruct (keeps_device_level not_fetch (fun _ => eq_refl) eq_refl
                (fanout_command k) (fanout_effect k) id w)
      as [_ _ _ Hl _ _ _ _]. congruence.
  - pose proof (device_op_outcome k seg id w) as H. rewrite Hr in H.
    by destruct H as (_ & _ & ?).
  - rewrite room_op_shape.
    destruct (keeps_room_level not_fetch (fun _ => eq_refl) eq_refl
                (fanout_command k) (fanout_effect k) id w)
      as [_ _ _ Hl _ _ _ _]. congruence.
  - rewrite room_op_shape in Hr |- *. by apply (room_level_returns _ _ _ _ s).
  - destruct (keeps_selectAmbianceRoom not_fetch (fun _ => eq_refl) eq_refl
                id ambiance w) as [_ _ _ Hl _ _ _ _]. congruence.
  - pose proof (selectAmbianceRoom_outcome id ambiance w) as H.
    rewrite Hr in H. by destruct H as (_ & _ & ?).
Qed.

Lemma mutation_forces_rebuild_witness :
  lock warm = false /\
  is_Some (CACHED_RESPONSE warm) /\
  fst (device_op (Dimmer 200) EmptyString 1 warm) = Ret EmptyString /\
  builder_invoked (snd (device_op (Dimmer 200) EmptyString 1 warm)).
Proof.
  assert (L : lock warm = false) by (vm_compute; reflexivity).
  assert (Hr : fst (device_op (Dimmer 200) EmptyString 1 warm)
               = Ret EmptyString) by (vm_compute; reflexivity).
  split; [ exact L | ].
  split; [ vm_compute; eexists; reflexivity | ].
  split; [ exact Hr | ].
  exact (proj1 (mutation_forces_rebuild (Dimmer 200) EmptyString 1 0 warm L)
           EmptyString Hr).
Defined.
